(** * CosmiFill: the sandboxed execution and tool-mediation layer

    A shallow embedding of
    - [SecureSandbox], the class that the tests import from
      security/sandbox (its text is in
      src/cosmifill-ui/src/main/pdf/data-extractor.ts, lines 423 to 600),
      and [SandboxManager], which follows it (lines 602 to 641);
    - [DataExtractor.parseCSV] (the same file, lines 96 to 115);
    - [SecureToolHandler], src/cosmifill-ui/src/main/security/secure-tools.ts;
    - [logSecurityEvent] of utils/logger (its text is in
      src/cosmifill-ui/src/renderer.tsx, line 123);
    together with the parts of the Node.js runtime they call: [node:path]
    (POSIX flavour), [String.prototype] methods, [node:fs/promises] and the
    events of a spawned [ChildProcess].  The runtime is modelled after its
    documented behaviour.

    Strings are sequences of 8-bit characters; the JavaScript strings of the
    program are sequences of UTF-16 code units, so the model covers the
    program's behaviour on ASCII text. *)

From Stdlib Require Import ZArith Ascii.
From stdpp Require Import gmap strings list fin_maps.

Local Open Scope Z_scope.

(** ** JavaScript string primitives *)

Module JS.

Definition chars (s : string) : list ascii := String.list_ascii_of_string s.

(** [s.slice(from, to)] for [0 <= from], clamped like the built-in. *)
Definition slice (s : string) (from to : Z) : string :=
  String.substring (Z.to_nat from) (Z.to_nat (to - from)) s.

(** [s.startsWith(p)] *)
Definition startsWith (s p : string) : bool := String.prefix p s.

(** [s.indexOf(p)]; [None] stands for the result [-1]. *)
Definition indexOf (s p : string) : option nat := String.index 0 p s.

(** [s.includes(p)] *)
Definition includes (s p : string) : bool :=
  match indexOf s p with Some _ => true | None => false end.

(** [l.includes(x)] on an array of strings. *)
Definition array_includes (l : list string) (x : string) : bool :=
  existsb (String.eqb x) l.

Definition lower_char (c : ascii) : ascii :=
  let n := nat_of_ascii c in
  if ((65 <=? n) && (n <=? 90))%nat then ascii_of_nat (n + 32) else c.

(** [s.toLowerCase()] *)
Fixpoint toLowerCase (s : string) : string :=
  match s with
  | EmptyString => EmptyString
  | String c s' => String (lower_char c) (toLowerCase s')
  end.

(** The abstract operation GetSubstitution of ECMAScript for a string
    pattern: there are no captures, so the only replacement patterns are
    [$$], [$&], [$`] and [$']; every other [$] stands for itself. *)
Fixpoint getSubstitution (matched before after template : string) : string :=
  match template with
  | EmptyString => EmptyString
  | String c t =>
      if Ascii.eqb c "$" then
        match t with
        | String d rest =>
            if Ascii.eqb d "$" then
              String "$" (getSubstitution matched before after rest)
            else if Ascii.eqb d "&" then
              matched +:+ getSubstitution matched before after rest
            else if Ascii.eqb d "`" then
              before +:+ getSubstitution matched before after rest
            else if Ascii.eqb d "'" then
              after +:+ getSubstitution matched before after rest
            else String c (getSubstitution matched before after t)
        | EmptyString => String c EmptyString
        end
      else String c (getSubstitution matched before after t)
  end.

(** [s.replace(pattern, replacement)] with a string pattern: only the
    first occurrence is replaced, and the replacement is a template. *)
Definition replace (s pattern replacement : string) : string :=
  match indexOf s pattern with
  | None => s
  | Some pos =>
      let before := String.substring 0 pos s in
      let tailPos := (pos + String.length pattern)%nat in
      let after := String.substring tailPos (String.length s - tailPos) s in
      before +:+ getSubstitution pattern before after replacement +:+ after
  end.

End JS.

(** ** [node:path], POSIX flavour *)

Module Path.

Definition is_slash (c : ascii) : bool := Ascii.eqb c "/".

(** The segments of a path between its separators. *)
Fixpoint segments (s : string) : list string :=
  match s with
  | EmptyString => [EmptyString]
  | String c s' =>
      if is_slash c then EmptyString :: segments s'
      else match segments s' with
           | [] => [String c EmptyString]
           | seg :: segs => String c seg :: segs
           end
  end.

Fixpoint join_segments (l : list string) : string :=
  match l with
  | [] => EmptyString
  | [x] => x
  | x :: rest => x +:+ "/" +:+ join_segments rest
  end.

(** One separator-delimited segment of [normalizeString]: empty and [.]
    segments are dropped, [..] removes the last kept segment unless there
    is none or it is itself [..] (then it is kept if [allowAboveRoot]),
    any other segment is appended.  [res] holds the kept segments. *)
Definition normalize_step (allowAboveRoot : bool) (res : list string)
    (seg : string) : list string :=
  if String.eqb seg "" || String.eqb seg "." then res
  else if String.eqb seg ".." then
    match last res with
    | Some l =>
        if String.eqb l ".." then
          if allowAboveRoot then res ++ [".."] else res
        else removelast res
    | None => if allowAboveRoot then res ++ [".."] else res
    end
  else res ++ [seg].

(** [normalizeString(path, allowAboveRoot, '/', isPosixPathSeparator)] *)
Definition normalizeString (path : string) (allowAboveRoot : bool) : string :=
  join_segments (fold_left (normalize_step allowAboveRoot) (segments path) []).

Definition isAbsolute (path : string) : bool :=
  match path with
  | String c _ => is_slash c
  | EmptyString => false
  end.

Definition ends_with_slash (path : string) : bool :=
  match last (JS.chars path) with
  | Some c => is_slash c
  | None => false
  end.

(** The loop of [path.resolve]: arguments are taken from the right until
    an absolute one is met; [todo] is the arguments reversed, followed by
    the working directory of the process. *)
Fixpoint resolve_loop (todo : list string) (resolvedPath : string)
    : string * bool :=
  match todo with
  | [] => (resolvedPath, false)
  | p :: rest =>
      if String.eqb p "" then resolve_loop rest resolvedPath
      else
        let resolvedPath := p +:+ "/" +:+ resolvedPath in
        if isAbsolute p then (resolvedPath, true)
        else resolve_loop rest resolvedPath
  end.

(** [path.resolve(...args)], with [cwd] the value of [process.cwd()]. *)
Definition resolve (cwd : string) (args : list string) : string :=
  let '(resolvedPath, resolvedAbsolute) :=
    resolve_loop (rev args ++ [cwd]) "" in
  let resolvedPath := normalizeString resolvedPath (negb resolvedAbsolute) in
  if resolvedAbsolute then "/" +:+ resolvedPath
  else if String.eqb resolvedPath "" then "." else resolvedPath.

(** [path.normalize(path)] *)
Definition normalize (path : string) : string :=
  if String.eqb path "" then "."
  else
    let isAbs := isAbsolute path in
    let trailingSeparator := ends_with_slash path in
    let p := normalizeString path (negb isAbs) in
    if String.eqb p "" then
      if isAbs then "/" else if trailingSeparator then "./" else "."
    else
      let p := if trailingSeparator then p +:+ "/" else p in
      if isAbs then "/" +:+ p else p.

(** [path.join(...args)] *)
Definition join (args : list string) : string :=
  match filter (fun a => a <> "") args with
  | [] => "."
  | parts => normalize (join_segments parts)
  end.

(** The loop state of [path.extname]. *)
Record ext_state := {
  startDot : Z; startPart : Z; end_ : Z;
  matchedSlash : bool; preDotState : Z; stopped : bool }.

Definition ext_init : ext_state :=
  {| startDot := -1; startPart := 0; end_ := -1;
     matchedSlash := true; preDotState := 0; stopped := false |}.

(** One iteration of the loop of [path.extname], at index [i] holding
    the character [c]. *)
Definition ext_step (st : ext_state) (ic : Z * ascii) : ext_state :=
  let '(i, c) := ic in
  if stopped st then st
  else if is_slash c then
    if negb (matchedSlash st) then
      {| startDot := startDot st; startPart := i + 1; end_ := end_ st;
         matchedSlash := matchedSlash st; preDotState := preDotState st;
         stopped := true |}
    else st
  else
    let st1 :=
      if end_ st =? -1 then
        {| startDot := startDot st; startPart := startPart st;
           end_ := i + 1; matchedSlash := false;
           preDotState := preDotState st; stopped := false |}
      else st in
    if Ascii.eqb c "." then
      if startDot st1 =? -1 then
        {| startDot := i; startPart := startPart st1; end_ := end_ st1;
           matchedSlash := matchedSlash st1;
           preDotState := preDotState st1; stopped := false |}
      else if negb (preDotState st1 =? 1) then
        {| startDot := startDot st1; startPart := startPart st1;
           end_ := end_ st1; matchedSlash := matchedSlash st1;
           preDotState := 1; stopped := false |}
      else st1
    else if negb (startDot st1 =? -1) then
      {| startDot := startDot st1; startPart := startPart st1;
         end_ := end_ st1; matchedSlash := matchedSlash st1;
         preDotState := -1; stopped := false |}
    else st1.

(** The characters of a string with their indices, last first. *)
Definition indexed_rev (s : string) : list (Z * ascii) :=
  rev (imap (fun i c => (Z.of_nat i, c)) (JS.chars s)).

(** [path.extname(path)] *)
Definition extname (path : string) : string :=
  let st := fold_left ext_step (indexed_rev path) ext_init in
  if (startDot st =? -1) || (end_ st =? -1) || (preDotState st =? 0)
     || ((preDotState st =? 1) && (startDot st =? end_ st - 1)
         && (startDot st =? startPart st + 1))
  then ""
  else JS.slice path (startDot st) (end_ st).

(** The loop of [path.dirname], from the last index down to 1; the
    result is [end] (or [-1]). *)
Fixpoint dirname_loop (l : list (Z * ascii)) (matchedSlash : bool) : Z :=
  match l with
  | [] => -1
  | (i, c) :: rest =>
      if i <? 1 then -1
      else if is_slash c then
        if negb matchedSlash then i else dirname_loop rest matchedSlash
      else dirname_loop rest false
  end.

(** [path.dirname(path)] *)
Definition dirname (path : string) : string :=
  if String.eqb path "" then "."
  else
    let hasRoot := isAbsolute path in
    let e := dirname_loop (indexed_rev path) true in
    if e =? -1 then (if hasRoot then "/" else ".")
    else if hasRoot && (e =? 1) then "//"
    else JS.slice path 0 e.

End Path.

(** ** The world the sandbox runs in *)

(** Values stored in the detail objects handed to the loggers. *)
Inductive js_value :=
| VStr (s : string)
| VArr (l : list string).

(** The errors thrown by the sandbox and the tool handler; each stands for
    a JavaScript [Error] with the message given next to it. *)
Inductive error :=
| AccessDenied (filePath : string)
    (* `Access denied: ${filePath} is outside sandbox` *)
| TypeNotAllowed (ext : string)
    (* `File type not allowed: ${ext}` *)
| CommandBlocked (command : string)
    (* `Command not allowed: ${command}` *)
| CommandFailed (code : option Z) (stderr : string)
    (* `Command failed with code ${code}: ${stderr}` *)
| TimedOut
    (* 'Command timed out' *)
| SpawnError (err : string)
    (* the error of the child's 'error' event *)
| CopyDenied (destination : string)
    (* `Cannot copy to ${destination}: outside sandbox` *)
| ContentNotFound
    (* 'Old content not found in file' *)
| FsError (code : string)
    (* a rejection of node:fs/promises, e.g. ENOENT *)
| Wrapped (context : string) (cause : error).
    (* `${context}: ${cause}`, as built by the tool handler *)

Inductive result (A : Type) :=
| Ok (a : A)
| Err (e : error).
Arguments Ok {A} a.
Arguments Err {A} e.

Module Fs.

(** An entry of the file system, keyed by the list of its path
    components from the root directory, which always exists. *)
Inductive node :=
| File (data : string)
| Directory
| Symlink (target : string).

Inductive walk_result :=
| Found (p : list string)
| Follow (cur todo : list string)
| Fail (code : string).

(** Path lookup up to the next symbolic link.  [cur] is the directory
    reached so far and [todo] the components left.  With [mk], missing
    directories are created on the way ([mkdir] with [recursive]); with
    [nofollow], a symbolic link in last position is not followed. *)
Fixpoint walk (mk nofollow : bool) (t : gmap (list string) node)
    (cur todo : list string) : gmap (list string) node * walk_result :=
  match todo with
  | [] => (t, Found cur)
  | c :: rest =>
      if String.eqb c "" || String.eqb c "." then walk mk nofollow t cur rest
      else if String.eqb c ".." then walk mk nofollow t (removelast cur) rest
      else
        let p := cur ++ [c] in
        match t !! p with
        | Some Directory => walk mk nofollow t p rest
        | Some (File _) =>
            match rest with
            | [] => if mk then (t, Fail "EEXIST") else (t, Found p)
            | _ => (t, Fail "ENOTDIR")
            end
        | Some (Symlink target) =>
            match rest with
            | [] => if nofollow then (t, Found p)
                    else (t, Follow (if Path.isAbsolute target then [] else cur)
                                    (Path.segments target))
            | _ => (t, Follow (if Path.isAbsolute target then [] else cur)
                              (Path.segments target ++ rest))
            end
        | None =>
            if mk then walk mk nofollow (<[p := Directory]> t) p rest
            else match rest with
                 | [] => (t, Found p)
                 | _ => (t, Fail "ENOENT")
                 end
        end
  end.

(** Full lookup; [fuel] bounds the number of symbolic links followed
    (ELOOP beyond it). *)
Fixpoint namei (fuel : nat) (mk nofollow : bool) (t : gmap (list string) node)
    (cur todo : list string) : gmap (list string) node * result (list string) :=
  match walk mk nofollow t cur todo with
  | (t', Found p) => (t', Ok p)
  | (t', Fail code) => (t', Err (FsError code))
  | (t', Follow cur' todo') =>
      match fuel with
      | O => (t', Err (FsError "ELOOP"))
      | S fuel' => namei fuel' mk nofollow t' cur' todo'
      end
  end.

Definition MAXSYMLINKS : nat := 40.

(** The components of a path handed to the file system; a relative path
    starts in the working directory [cwd] of the process. *)
Definition components (cwd path : string) : list string :=
  if Path.isAbsolute path then Path.segments path
  else Path.segments cwd ++ Path.segments path.

Definition lookup (cwd : string) (t : gmap (list string) node) (path : string)
    : result (list string) :=
  (namei MAXSYMLINKS false false t [] (components cwd path)).2.

(** [fs.readFile(path, 'utf-8')] *)
Definition readFile (cwd : string) (t : gmap (list string) node) (path : string)
    : result string :=
  match lookup cwd t path with
  | Err e => Err e
  | Ok [] => Err (FsError "EISDIR")
  | Ok p =>
      match t !! p with
      | Some (File data) => Ok data
      | Some Directory => Err (FsError "EISDIR")
      | Some (Symlink _) => Err (FsError "ELOOP")
      | None => Err (FsError "ENOENT")
      end
  end.

(** [fs.writeFile(path, data)]: the file is created or truncated; its
    parent directory must exist. *)
Definition writeFile (cwd : string) (t : gmap (list string) node)
    (path data : string) : gmap (list string) node * result unit :=
  match lookup cwd t path with
  | Err e => (t, Err e)
  | Ok [] => (t, Err (FsError "EISDIR"))
  | Ok p =>
      match t !! p with
      | Some (File _) | None => (<[p := File data]> t, Ok tt)
      | Some Directory => (t, Err (FsError "EISDIR"))
      | Some (Symlink _) => (t, Err (FsError "ELOOP"))
      end
  end.

(** [fs.mkdir(path, { recursive: true })] *)
Definition mkdir_recursive (cwd : string) (t : gmap (list string) node)
    (path : string) : gmap (list string) node * result unit :=
  match namei MAXSYMLINKS true false t [] (components cwd path) with
  | (t', Ok _) => (t', Ok tt)
  | (t', Err e) => (t', Err e)
  end.

(** [fs.copyFile(src, dest)] *)
Definition copyFile (cwd : string) (t : gmap (list string) node)
    (src dest : string) : gmap (list string) node * result unit :=
  match readFile cwd t src with
  | Err e => (t, Err e)
  | Ok data => writeFile cwd t dest data
  end.

(** [fs.rm(path, { recursive: true, force: true })]: the entry and all
    that is below it are removed; a missing entry is not an error. *)
Definition rm_recursive (cwd : string) (t : gmap (list string) node)
    (path : string) : gmap (list string) node * result unit :=
  match (namei MAXSYMLINKS false true t [] (components cwd path)).2 with
  | Err (FsError "ENOENT") => (t, Ok tt)
  | Err e => (t, Err e)
  | Ok p => (filter (fun kv => ¬ p `prefix_of` kv.1) t, Ok tt)
  end.

End Fs.

(** The promise returned by [executeCommand]. *)
Inductive promise :=
| Pending
| Fulfilled (stdout stderr : string)
| Rejected (e : error).

(** The variables captured by the handlers that one call of
    [executeCommand] installs on its child. *)
Record closure := {
  cl_processId : string;
  cl_stdout : string;
  cl_stderr : string;
  cl_promise : promise }.

(** One call of [child_process.spawn(command, args, { cwd, env, timeout })]. *)
Record spawn_call := {
  sp_command : string;
  sp_args : list string;
  sp_cwd : string;
  sp_env : list (string * string);
  sp_timeout : Z }.

Record world := {
  w_cwd : string;                         (* process.cwd() *)
  w_now : string;                         (* new Date().toISOString() *)
  w_fs : gmap (list string) Fs.node;
  w_security : list (string * gmap string js_value);
                                          (* calls of securityLogger.info *)
  w_applog : list (string * string * gmap string js_value);
                                          (* calls of logger.<level> *)
  w_console : list string;                (* console.error *)
  w_spawned : list spawn_call;            (* the n-th spawn returns child n *)
  w_killed : gset nat;                    (* children on which kill() was called *)
  w_ended : gset nat;                     (* children that had 'close' or 'error' *)
  processes : gmap string nat;            (* this.processes *)
  w_calls : gmap nat closure }.

Definition set_fs (f : gmap (list string) Fs.node) (w : world) : world :=
  {| w_cwd := w_cwd w; w_now := w_now w; w_fs := f;
     w_security := w_security w; w_applog := w_applog w;
     w_console := w_console w; w_spawned := w_spawned w;
     w_killed := w_killed w; w_ended := w_ended w;
     processes := processes w; w_calls := w_calls w |}.

Definition set_security (l : list (string * gmap string js_value)) (w : world)
    : world :=
  {| w_cwd := w_cwd w; w_now := w_now w; w_fs := w_fs w;
     w_security := l; w_applog := w_applog w;
     w_console := w_console w; w_spawned := w_spawned w;
     w_killed := w_killed w; w_ended := w_ended w;
     processes := processes w; w_calls := w_calls w |}.

Definition set_applog (l : list (string * string * gmap string js_value))
    (w : world) : world :=
  {| w_cwd := w_cwd w; w_now := w_now w; w_fs := w_fs w;
     w_security := w_security w; w_applog := l;
     w_console := w_console w; w_spawned := w_spawned w;
     w_killed := w_killed w; w_ended := w_ended w;
     processes := processes w; w_calls := w_calls w |}.

Definition set_console (l : list string) (w : world) : world :=
  {| w_cwd := w_cwd w; w_now := w_now w; w_fs := w_fs w;
     w_security := w_security w; w_applog := w_applog w;
     w_console := l; w_spawned := w_spawned w;
     w_killed := w_killed w; w_ended := w_ended w;
     processes := processes w; w_calls := w_calls w |}.

Definition set_spawned (l : list spawn_call) (w : world) : world :=
  {| w_cwd := w_cwd w; w_now := w_now w; w_fs := w_fs w;
     w_security := w_security w; w_applog := w_applog w;
     w_console := w_console w; w_spawned := l;
     w_killed := w_killed w; w_ended := w_ended w;
     processes := processes w; w_calls := w_calls w |}.

Definition set_killed (k : gset nat) (w : world) : world :=
  {| w_cwd := w_cwd w; w_now := w_now w; w_fs := w_fs w;
     w_security := w_security w; w_applog := w_applog w;
     w_console := w_console w; w_spawned := w_spawned w;
     w_killed := k; w_ended := w_ended w;
     processes := processes w; w_calls := w_calls w |}.

Definition set_ended (k : gset nat) (w : world) : world :=
  {| w_cwd := w_cwd w; w_now := w_now w; w_fs := w_fs w;
     w_security := w_security w; w_applog := w_applog w;
     w_console := w_console w; w_spawned := w_spawned w;
     w_killed := w_killed w; w_ended := k;
     processes := processes w; w_calls := w_calls w |}.

Definition set_processes (m : gmap string nat) (w : world) : world :=
  {| w_cwd := w_cwd w; w_now := w_now w; w_fs := w_fs w;
     w_security := w_security w; w_applog := w_applog w;
     w_console := w_console w; w_spawned := w_spawned w;
     w_killed := w_killed w; w_ended := w_ended w;
     processes := m; w_calls := w_calls w |}.

Definition set_calls (m : gmap nat closure) (w : world) : world :=
  {| w_cwd := w_cwd w; w_now := w_now w; w_fs := w_fs w;
     w_security := w_security w; w_applog := w_applog w;
     w_console := w_console w; w_spawned := w_spawned w;
     w_killed := w_killed w; w_ended := w_ended w;
     processes := processes w; w_calls := m |}.

(** ** Asynchronous functions: state and exceptions *)

Definition M (A : Type) : Type := world -> result A * world.

Definition ret {A} (a : A) : M A := fun w => (Ok a, w).

Definition throw {A} (e : error) : M A := fun w => (Err e, w).

Definition bind {A B} (m : M A) (k : A -> M B) : M B :=
  fun w =>
    match m w with
    | (Ok a, w') => k a w'
    | (Err e, w') => (Err e, w')
    end.

Definition try_catch {A} (m : M A) (handler : error -> M A) : M A :=
  fun w =>
    match m w with
    | (Ok a, w') => (Ok a, w')
    | (Err e, w') => handler e w'
    end.

Definition gets {A} (f : world -> A) : M A := fun w => (Ok (f w), w).

Definition modify (f : world -> world) : M unit := fun w => (Ok tt, f w).

Notation "'let*' x ':=' m 'in' k" := (bind m (fun x => k))
  (at level 10, x name, m at level 100, k at level 200).

(** Lifting of the file-system operations. *)
Definition fs_readFile (path : string) : M string :=
  fun w => (Fs.readFile (w_cwd w) (w_fs w) path, w).

Definition fs_step (op : string -> gmap (list string) Fs.node ->
                         gmap (list string) Fs.node * result unit) : M unit :=
  fun w => let '(t, r) := op (w_cwd w) (w_fs w) in (r, set_fs t w).

Definition fs_writeFile (path data : string) : M unit :=
  fs_step (fun cwd t => Fs.writeFile cwd t path data).

Definition fs_mkdir_recursive (path : string) : M unit :=
  fs_step (fun cwd t => Fs.mkdir_recursive cwd t path).

Definition fs_copyFile (src dest : string) : M unit :=
  fs_step (fun cwd t => Fs.copyFile cwd t src dest).

Definition fs_rm_recursive (path : string) : M unit :=
  fs_step (fun cwd t => Fs.rm_recursive cwd t path).

(** ** utils/logger *)

(** [details.sessionId || 'unknown'] *)
Definition sessionId_or_unknown (details : gmap string js_value) : js_value :=
  match details !! "sessionId" with
  | Some (VStr s) => if String.eqb s "" then VStr "unknown" else VStr s
  | Some v => v
  | None => VStr "unknown"
  end.

Definition logSecurityEvent (event : string) (details : gmap string js_value)
    : M unit :=
  fun w =>
    let meta :=
      <["sessionId" := sessionId_or_unknown details]>
        (<["timestamp" := VStr (w_now w)]> details) in
    (Ok tt, set_security (w_security w ++ [(event, meta)]) w).

Definition logger_debug (message : string) (meta : gmap string js_value)
    : M unit :=
  modify (fun w => set_applog (w_applog w ++ [("debug", message, meta)]) w).

Definition console_error (message : string) : M unit :=
  modify (fun w => set_console (w_console w ++ [message]) w).

(** ** security/sandbox.ts: [SecureSandbox] *)

Record SandboxConfig := {
  sessionId : string;
  workDir : string;
  allowedPaths : list string;
  timeout : Z }.

Definition allowedExtensions : list string :=
  [".pdf"; ".json"; ".txt"; ".py"; ".log"].

Definition allowedCommands : list string :=
  ["ls"; "pwd"; "echo"; "python"; "python3"].

Section Sandbox.

Variable config : SandboxConfig.

Definition validatePath (requestedPath : string) : M bool :=
  let* cwd := gets w_cwd in
  let resolved := Path.resolve cwd [workDir config; requestedPath] in
  ret (existsb (fun allowedPath => JS.startsWith resolved allowedPath)
               (allowedPaths config)).

Definition readFile (filePath : string) : M string :=
  let fullPath := Path.join [workDir config; filePath] in
  let* ok := validatePath fullPath in
  if negb ok then
    let* _ := logSecurityEvent "file_access_denied"
      (<["sessionId" := VStr (sessionId config)]>
         (<["path" := VStr filePath]>
            (<["operation" := VStr "read"]> ∅))) in
    throw (AccessDenied filePath)
  else
    let* _ := logger_debug "File read allowed"
      (<["sessionId" := VStr (sessionId config)]>
         (<["path" := VStr filePath]> ∅)) in
    fs_readFile fullPath.

Definition writeFile (filePath content : string) : M unit :=
  let fullPath := Path.join [workDir config; filePath] in
  let* ok := validatePath fullPath in
  if negb ok then throw (AccessDenied filePath)
  else
    let ext := JS.toLowerCase (Path.extname filePath) in
    if negb (JS.array_includes allowedExtensions ext) then
      throw (TypeNotAllowed ext)
    else fs_writeFile fullPath content.

(** The restricted environment of a spawned command. *)
Definition env : list (string * string) :=
  [("HOME", workDir config);
   ("PATH", "/usr/bin:/bin");
   ("PYTHONPATH", Path.join [workDir config; "modules"])].

(** [spawn(command, args, options)]: the call is recorded and the new
    child is returned. *)
Definition spawn (command : string) (args : list string) : M nat :=
  fun w =>
    (Ok (length (w_spawned w)),
     set_spawned (w_spawned w ++
       [{| sp_command := command; sp_args := args;
           sp_cwd := workDir config; sp_env := env;
           sp_timeout := timeout config |}]) w).

(** The part of [executeCommand] that runs before it returns its
    promise.  [processId] is the value of
    [`${Date.now()}-${Math.random()}`].  A blocked command gives a
    rejected promise ([Err]); otherwise the result is the child whose
    handlers will settle the promise. *)
Definition executeCommand (command : string) (args : list string)
    (processId : string) : M nat :=
  if negb (JS.array_includes allowedCommands command) then
    let* _ := logSecurityEvent "command_blocked"
      (<["sessionId" := VStr (sessionId config)]>
         (<["command" := VStr command]>
            (<["args" := VArr args]> ∅))) in
    throw (CommandBlocked command)
  else
    let* _ := logger_debug "Command execution allowed"
      (<["sessionId" := VStr (sessionId config)]>
         (<["command" := VStr command]>
            (<["args" := VArr args]> ∅))) in
    let* child := spawn command args in
    let* _ := modify (fun w =>
      set_processes (<[processId := child]> (processes w)) w) in
    let* _ := modify (fun w => set_calls
      (<[child := {| cl_processId := processId; cl_stdout := "";
                     cl_stderr := ""; cl_promise := Pending |}]>
         (w_calls w)) w) in
    ret child.

(** [resolve] and [reject] of a promise act only while it is pending. *)
Definition settle (p : promise) (cl : closure) : closure :=
  {| cl_processId := cl_processId cl; cl_stdout := cl_stdout cl;
     cl_stderr := cl_stderr cl;
     cl_promise := match cl_promise cl with
                   | Pending => p
                   | settled => settled
                   end |}.

Definition with_closure (child : nat) (f : closure -> world -> world)
    (w : world) : world :=
  match w_calls w !! child with
  | Some cl => f cl w
  | None => w
  end.

Definition processes_delete (processId : string) (w : world) : world :=
  set_processes (delete processId (processes w)) w.

Definition update_closure (child : nat) (cl : closure) (w : world) : world :=
  set_calls (<[child := cl]> (w_calls w)) w.

(** [child.stdout.on('data', ...)] *)
Definition on_stdout (child : nat) (data : string) : world -> world :=
  with_closure child (fun cl =>
    update_closure child
      {| cl_processId := cl_processId cl;
         cl_stdout := cl_stdout cl +:+ data;
         cl_stderr := cl_stderr cl; cl_promise := cl_promise cl |}).

(** [child.stderr.on('data', ...)] *)
Definition on_stderr (child : nat) (data : string) : world -> world :=
  with_closure child (fun cl =>
    update_closure child
      {| cl_processId := cl_processId cl;
         cl_stdout := cl_stdout cl;
         cl_stderr := cl_stderr cl +:+ data; cl_promise := cl_promise cl |}).

(** [child.on('error', ...)] *)
Definition on_error (child : nat) (err : string) : world -> world :=
  with_closure child (fun cl w =>
    update_closure child (settle (Rejected (SpawnError err)) cl)
      (processes_delete (cl_processId cl) w)).

(** [child.on('close', ...)]; the code is [None] when the child was
    ended by a signal. *)
Definition on_close (child : nat) (code : option Z) : world -> world :=
  with_closure child (fun cl w =>
    let w := processes_delete (cl_processId cl) w in
    match code with
    | Some 0 =>
        update_closure child
          (settle (Fulfilled (cl_stdout cl) (cl_stderr cl)) cl) w
    | _ =>
        update_closure child
          (settle (Rejected (CommandFailed code (cl_stderr cl))) cl) w
    end).

(** The callback of [setTimeout(..., this.config.timeout)] *)
Definition on_timer (child : nat) : world -> world :=
  with_closure child (fun cl w =>
    match processes w !! cl_processId cl with
    | Some _ =>
        let w := set_killed ({[child]} ∪ w_killed w) w in
        let w := processes_delete (cl_processId cl) w in
        update_closure child (settle (Rejected TimedOut) cl) w
    | None => w
    end).

Definition cleanup : M unit :=
  let* _ := modify (fun w =>
    set_processes ∅
      (set_killed (list_to_set (map_to_list (processes w)).*2 ∪ w_killed w) w)) in
  try_catch (fs_rm_recursive (workDir config))
    (fun _ => console_error "Failed to cleanup sandbox:").

Fixpoint copyFiles (files : list (string * string)) : M unit :=
  match files with
  | [] => ret tt
  | (source, destination) :: rest =>
      let destPath := Path.join [workDir config; destination] in
      let* ok := validatePath destPath in
      if negb ok then throw (CopyDenied destination)
      else
        let* _ := fs_mkdir_recursive (Path.dirname destPath) in
        let* _ := fs_copyFile source destPath in
        copyFiles rest
  end.

(** ** security/secure-tools.ts: [SecureToolHandler] *)

Definition handleRead (filePath : string) : M string :=
  try_catch (readFile filePath)
    (fun e => throw (Wrapped "Failed to read file" e)).

Definition handleWrite (filePath content : string) : M unit :=
  try_catch (writeFile filePath content)
    (fun e => throw (Wrapped "Failed to write file" e)).

Definition handleEdit (filePath oldContent newContent : string) : M unit :=
  try_catch
    (let* currentContent := readFile filePath in
     if negb (JS.includes currentContent oldContent) then
       throw ContentNotFound
     else
       let updatedContent := JS.replace currentContent oldContent newContent in
       writeFile filePath updatedContent)
    (fun e => throw (Wrapped "Failed to edit file" e)).

(** ** What happens to a sandbox

    The calls of [executeCommand], the events that the runtime delivers
    to the handlers of a child, and the teardown of the session. *)

Inductive event :=
| EvCall (command : string) (args : list string) (processId : string)
| EvStdout (child : nat) (data : string)
| EvStderr (child : nat) (data : string)
| EvError (child : nat) (err : string)
| EvClose (child : nat) (code : option Z)
| EvTimer (child : nat)
| EvCleanup.

(** The delivery of 'error' or 'close' is remembered; a child that was
    never spawned has no events. *)
Definition mark_ended (child : nat) : world -> world :=
  with_closure child (fun _ w => set_ended ({[child]} ∪ w_ended w) w).

(** One step of a session.  The kill that the runtime itself performs
    when the [timeout] option of [spawn] expires shows as the 'close'
    event that follows it. *)
Definition deliver (w : world) (ev : event) : world :=
  match ev with
  | EvCall command args processId => (executeCommand command args processId w).2
  | EvStdout child data => on_stdout child data w
  | EvStderr child data => on_stderr child data w
  | EvError child err => on_error child err (mark_ended child w)
  | EvClose child code => on_close child code (mark_ended child w)
  | EvTimer child => on_timer child w
  | EvCleanup => (cleanup w).2
  end.

Definition run (w : world) (trace : list event) : world :=
  fold_left deliver trace w.

End Sandbox.

(** A process in which no sandbox operation has run yet. *)
Definition initial (cwd now : string) (t : gmap (list string) Fs.node) : world :=
  {| w_cwd := cwd; w_now := now; w_fs := t; w_security := []; w_applog := [];
     w_console := []; w_spawned := []; w_killed := ∅; w_ended := ∅;
     processes := ∅; w_calls := ∅ |}.

(** ** security/sandbox.ts: [SandboxManager] *)

(** A JavaScript [Map] with string keys: the entries in insertion order,
    at most one per key.  [set] on a key that is present replaces the
    value where the entry stands. *)
Module JSMap.

Section Ops.

Context {V : Type}.

Fixpoint get (m : list (string * V)) (k : string) : option V :=
  match m with
  | [] => None
  | (k', v) :: m' => if String.eqb k' k then Some v else get m' k
  end.

Fixpoint set (m : list (string * V)) (k : string) (v : V) : list (string * V) :=
  match m with
  | [] => [(k, v)]
  | (k', v') :: m' =>
      if String.eqb k' k then (k', v) :: m' else (k', v') :: set m' k v
  end.

Fixpoint delete (m : list (string * V)) (k : string) : list (string * V) :=
  match m with
  | [] => []
  | (k', v') :: m' =>
      if String.eqb k' k then delete m' k else (k', v') :: delete m' k
  end.

End Ops.

End JSMap.

(** A [SecureSandbox] object: its configuration and its registry of
    processes.  The objects live in a heap and are handled by reference
    (their index in the heap): the sandbox that [createSandbox] returns
    and the one that [getSandbox] finds later are one object. *)
Record sandbox := {
  sb_config : SandboxConfig;
  sb_processes : gmap string nat }.

(** The manager with its surroundings.  [m_sandboxes] is [this.sandboxes],
    from session ids to references. *)
Record manager := {
  m_world : world;
  m_heap : list sandbox;
  m_sandboxes : list (string * nat) }.

(** A method call on the object behind a reference: the registry of the
    object is [this.processes] while the method runs. *)
Definition invoke {A} (ref : nat) (method : SandboxConfig -> M A) (m : manager)
    : option (result A * manager) :=
  match m_heap m !! ref with
  | Some sb =>
      let '(r, w') :=
        method (sb_config sb) (set_processes (sb_processes sb) (m_world m)) in
      Some (r, {| m_world := set_processes (processes (m_world m)) w';
                  m_heap := <[ref := {| sb_config := sb_config sb;
                                        sb_processes := processes w' |}]>
                              (m_heap m);
                  m_sandboxes := m_sandboxes m |})
  | None => None
  end.

(** [sandbox.cleanup()].  References are made by [createSandbox] only and
    always point into the heap; nothing happens on any other number. *)
Definition sandbox_cleanup (ref : nat) (m : manager) : result unit * manager :=
  match invoke ref cleanup m with
  | Some rm => rm
  | None => (Ok tt, m)
  end.

(** [createSandbox(sessionId)], with [tmpdir] the value of [os.tmpdir()]. *)
Definition createSandbox (tmpdir sessionId : string) (m : manager)
    : result nat * manager :=
  let workDir := Path.join [tmpdir; "cosmifill_" +:+ sessionId] in
  match fs_mkdir_recursive workDir (m_world m) with
  | (Err e, w') =>
      (Err e, {| m_world := w'; m_heap := m_heap m;
                 m_sandboxes := m_sandboxes m |})
  | (Ok _, w') =>
      let config := {| sessionId := sessionId; workDir := workDir;
                       allowedPaths := [workDir]; timeout := 30000 |} in
      let sandbox := length (m_heap m) in
      (Ok sandbox,
       {| m_world := w';
          m_heap := m_heap m ++ [{| sb_config := config; sb_processes := ∅ |}];
          m_sandboxes := JSMap.set (m_sandboxes m) sessionId sandbox |})
  end.

Definition getSandbox (sessionId : string) (m : manager) : option nat :=
  JSMap.get (m_sandboxes m) sessionId.

Definition destroySandbox (sessionId : string) (m : manager)
    : result unit * manager :=
  match JSMap.get (m_sandboxes m) sessionId with
  | Some sandbox =>
      match sandbox_cleanup sandbox m with
      | (Ok _, m') =>
          (Ok tt, {| m_world := m_world m'; m_heap := m_heap m';
                     m_sandboxes := JSMap.delete (m_sandboxes m') sessionId |})
      | (Err e, m') => (Err e, m')
      end
  | None => (Ok tt, m)
  end.

(** The loop of [destroyAllSandboxes] over the entries of the map. *)
Fixpoint cleanup_each (entries : list (string * nat)) (m : manager)
    : result unit * manager :=
  match entries with
  | [] => (Ok tt, m)
  | (_, sandbox) :: rest =>
      match sandbox_cleanup sandbox m with
      | (Ok _, m') => cleanup_each rest m'
      | (Err e, m') => (Err e, m')
      end
  end.

Definition destroyAllSandboxes (m : manager) : result unit * manager :=
  match cleanup_each (m_sandboxes m) m with
  | (Ok _, m') =>
      (Ok tt, {| m_world := m_world m'; m_heap := m_heap m'; m_sandboxes := [] |})
  | (Err e, m') => (Err e, m')
  end.

(** A manager that has created nothing yet. *)
Definition new_manager (w : world) : manager :=
  {| m_world := w; m_heap := []; m_sandboxes := [] |}.

(** ** pdf/data-extractor.ts: [DataExtractor.parseCSV] *)

(** The string primitives of the parser. *)
Module Str.

(** The characters that [trim] removes, among the ASCII characters: TAB,
    LF, VT, FF, CR and the space. *)
Definition is_space (c : ascii) : bool :=
  let n := nat_of_ascii c in
  ((9 <=? n) && (n <=? 13) || (n =? 32))%nat.

Fixpoint trimStart (s : string) : string :=
  match s with
  | EmptyString => EmptyString
  | String c s' => if is_space c then trimStart s' else s
  end.

Fixpoint trimEnd (s : string) : string :=
  match s with
  | EmptyString => EmptyString
  | String c s' =>
      match trimEnd s' with
      | EmptyString => if is_space c then EmptyString else String c EmptyString
      | t => String c t
      end
  end.

(** [s.trim()] *)
Definition trim (s : string) : string := trimEnd (trimStart s).

(** [s.split(sep)] for a separator of one character: the result is never
    empty, and the empty string gives one empty piece. *)
Fixpoint split (sep : ascii) (s : string) : list string :=
  match s with
  | EmptyString => [EmptyString]
  | String c s' =>
      if Ascii.eqb c sep then EmptyString :: split sep s'
      else match split sep s' with
           | [] => [String c EmptyString]
           | piece :: pieces => String c piece :: pieces
           end
  end.

Definition LF : ascii := ascii_of_nat 10.

End Str.

(** [row[key] = value] on an object made by [{}], for a string [value]:
    the key [__proto__] is the accessor of [Object.prototype], whose
    setter ignores a string, so that no property is made. *)
Definition object_set (row : gmap string string) (key value : string)
    : gmap string string :=
  if String.eqb key "__proto__" then row else <[key := value]> row.

(** [headers.forEach((header, index) => { row[header] = values[index] || '' })],
    from [index] on. *)
Fixpoint fill_row (headers : list string) (index : nat) (values : list string)
    (row : gmap string string) : gmap string string :=
  match headers with
  | [] => row
  | header :: rest =>
      let value := match values !! index with
                   | Some v => if String.eqb v "" then "" else v
                   | None => ""
                   end in
      fill_row rest (S index) values (object_set row header value)
  end.

Definition parseCSV (content : string) : list (gmap string string) :=
  let lines := Str.split Str.LF (Str.trim content) in
  match lines with
  | [] => []
  | first :: rest =>
      let headers := Str.trim <$> Str.split "," first in
      (fun line => fill_row headers 0 (Str.trim <$> Str.split "," line) ∅) <$> rest
  end.

(** ** Sample sessions *)

Module Sample.

(** A session rooted at /tmp/s1. *)
Definition config : SandboxConfig :=
  {| sessionId := "s1"; workDir := "/tmp/s1";
     allowedPaths := ["/tmp/s1"]; timeout := 100 |}.

(** A file system holding the session root with a text file, a data
    file and a symbolic link to /etc, and a directory next to the root
    whose name starts with the name of the root. *)
Definition tree : gmap (list string) Fs.node :=
  list_to_map
    [ (["etc"], Fs.Directory);
      (["etc"; "passwd"], Fs.File "root:x:0:0");
      (["home"], Fs.Directory);
      (["home"; "form.pdf"], Fs.File "%PDF");
      (["tmp"], Fs.Directory);
      (["tmp"; "s1"], Fs.Directory);
      (["tmp"; "s1"; "hello.txt"], Fs.File "Hello Hello");
      (["tmp"; "s1"; "data.csv"], Fs.File "Hello Hello");
      (["tmp"; "s1"; "link"], Fs.Symlink "/etc");
      (["tmp"; "s1evil"], Fs.Directory);
      (["tmp"; "s1evil"; "secret.txt"], Fs.File "secret") ].

Definition world0 : world := initial "/home" "2025-01-01T00:00:00.000Z" tree.

(** A manager with one session, whose sandbox runs one child. *)
Definition manager0 : manager :=
  {| m_world := world0;
     m_heap := [{| sb_config := {| sessionId := "s1";
                                   workDir := "/tmp/cosmifill_s1";
                                   allowedPaths := ["/tmp/cosmifill_s1"];
                                   timeout := 30000 |};
                   sb_processes := {["1-0.5" := 0%nat]} |}];
     m_sandboxes := [("s1", 0%nat)] |}.

End Sample.

(** * The vocabulary of the properties *)

(** ** Paths and files *)

(** The verdict of [validatePath], which reads nothing of the world but
    the working directory of the process. *)
Definition permitted (config : SandboxConfig) (w : world) (requestedPath : string)
    : bool :=
  existsb (JS.startsWith (Path.resolve (w_cwd w) [workDir config; requestedPath]))
          (allowedPaths config).

(** The entry, if any, is a directory. *)
Definition is_directory (n : option Fs.node) : bool :=
  match n with
  | Some Fs.Directory => true
  | _ => false
  end.

(** The components of a path, without the empty ones. *)
Definition path_components (p : string) : list string :=
  filter (fun s => s <> "") (Path.segments p).

(** Containment in the words of the specification: [p] is equal to [dir]
    or a descendant of it. *)
Definition contained (dir p : string) : Prop :=
  path_components dir `prefix_of` path_components p.

(** [pattern] occurs in [s]. *)
Definition is_substring (pattern s : string) : Prop :=
  exists pre post, s = pre +:+ pattern +:+ post.

(** No [$] in a replacement: it holds no replacement pattern. *)
Fixpoint dollar_free (s : string) : bool :=
  match s with
  | EmptyString => true
  | String c s' => negb (Ascii.eqb c "$") && dollar_free s'
  end.

(** A segment is plain when it is neither empty nor [.] nor [..]. *)
Definition plain_segment (seg : string) : bool :=
  negb (String.eqb seg "") && negb (String.eqb seg ".")
  && negb (String.eqb seg "..").

(** The place a path leads to once symbolic links are followed. *)
Definition real_location (w : world) (path : string) : result (list string) :=
  Fs.lookup (w_cwd w) (w_fs w) path.

(** The requested path goes through a symbolic link that lies in the
    session root and ends outside the root. *)
Definition leaves_root_through_symlink (config : SandboxConfig) (w : world)
    (requestedPath : string) : Prop :=
  let resolved := Path.resolve (w_cwd w) [workDir config; requestedPath] in
  exists link target q,
    path_components (workDir config) `prefix_of` link
    /\ link `prefix_of` path_components resolved
    /\ w_fs w !! link = Some (Fs.Symlink target)
    /\ real_location w resolved = Ok q
    /\ ~ path_components (workDir config) `prefix_of` q.

(** ** Spawned commands *)

(** The whitelist test of [executeCommand]. *)
Definition allowed (command : string) : bool :=
  JS.array_includes allowedCommands command.





(** The promise that a 'close' event settles. *)
Definition close_outcome (code : option Z) (stdout stderr : string) : promise :=
  match code with
  | Some 0 => Fulfilled stdout stderr
  | _ => Rejected (CommandFailed code stderr)
  end.











(** ** Teardown *)



(** The segments of [a +:+ b] from those of [a] and of [b]: the last
    segment of [a] and the first of [b] become one. *)
Fixpoint glue (l1 l2 : list string) : list string :=
  match l1 with
  | [] => l2
  | [x] => match l2 with
           | hd :: tl => (x +:+ hd) :: tl
           | [] => [x]
           end
  | x :: rest => x :: glue rest l2
  end.

(** ** The manager *)

(** Every session of the map refers to an object of the heap. *)
Definition refs_valid (m : manager) : Prop :=
  forall (sessionId : string) (sandbox : nat),
    (sessionId, sandbox) ∈ m_sandboxes m -> (sandbox < length (m_heap m))%nat.

(** The children registered in the object behind a reference. *)
Definition registered (m : manager) (sandbox child : nat) : Prop :=
  exists sb processId,
    m_heap m !! sandbox = Some sb /\ sb_processes sb !! processId = Some child.

(** No [/] in a session id. *)
Fixpoint slash_free (s : string) : bool :=
  match s with
  | EmptyString => true
  | String c s' => negb (Path.is_slash c) && slash_free s'
  end.

(** An object after its teardown. *)
Definition cleared (sb : sandbox) : sandbox :=
  {| sb_config := sb_config sb; sb_processes := ∅ |}.

(** Every entry of the tree lies in a directory. *)
Definition directory_at (t : gmap (list string) Fs.node) (p : list string) : Prop :=
  p = [] \/ t !! p = Some Fs.Directory.

Definition tree_wf (t : gmap (list string) Fs.node) : Prop :=
  map_Forall (fun k _ => k <> [] /\ directory_at t (removelast k)) t.

(** ** The audit trail *)

(** The calls of a trace that the whitelist refuses. *)
Definition blocked_calls (trace : list event) : list (string * list string) :=
  omap (fun ev => match ev with
                  | EvCall command args _ =>
                      if allowed command then None else Some (command, args)
                  | _ => None
                  end) trace.

(** The record that the security log holds for a refused call. *)
Definition audit_of (config : SandboxConfig)
    (record : string * gmap string js_value) (call : string * list string)
    : Prop :=
  record.1 = "command_blocked"
  /\ record.2 !! "command" = Some (VStr call.1)
  /\ record.2 !! "args" = Some (VArr call.2)
  /\ record.2 !! "sessionId"
     = Some (VStr (if String.eqb (sessionId config) "" then "unknown"
                   else sessionId config))
  /\ is_Some (record.2 !! "timestamp")
  /\ dom record.2 = {["sessionId"; "command"; "args"; "timestamp"]}.

(** ** The CSV parser *)

(** The cell at a position of a line, empty when the line is too short. *)
Definition cell (values : list string) (index : nat) : string :=
  default "" (values !! index).

(** * Properties *)

(** ** Basic facts about the primitives *)

(** The examples of the Node.js documentation. *)
Example path_examples :
  Path.join ["/foo"; "bar"; "baz/asdf"; "quux"; ".."] = "/foo/bar/baz/asdf"
  /\ Path.resolve "/cwd" ["/foo/bar"; "./baz"] = "/foo/bar/baz"
  /\ Path.resolve "/cwd" ["/foo/bar"; "/tmp/file/"] = "/tmp/file"
  /\ Path.resolve "/home/myself/node"
       ["wwwroot"; "static_files/png/"; "../gif/image.gif"]
     = "/home/myself/node/wwwroot/static_files/gif/image.gif"
  /\ Path.normalize "/foo/bar//baz/asdf/quux/.." = "/foo/bar/baz/asdf"
  /\ map Path.extname
       ["index.html"; "index.coffee.md"; "index."; "index"; ".index"; ".index.md"]
     = [".html"; ".md"; "."; ""; ""; ".md"]
  /\ Path.dirname "/foo/bar/baz/asdf/quux" = "/foo/bar/baz/asdf".
Proof. by vm_compute. Qed.

Example string_examples :
  JS.replace "Hello Hello" "Hello" "Hi" = "Hi Hello"
  /\ JS.replace "abc" "" "X" = "Xabc"
  /\ JS.replace "abc" "d" "X" = "abc"
  /\ JS.replace "a-b" "-" "[$&|$`|$'|$$|$1]" = "a[-|a|b|$|$1]b"
  /\ JS.includes "abc" "" = true
  /\ JS.toLowerCase ".PdF" = ".pdf".
Proof. by vm_compute. Qed.

Lemma array_includes_elem_of (l : list string) (x : string) :
  JS.array_includes l x = true <-> x ∈ l.
Proof.
  unfold JS.array_includes. rewrite existsb_exists, list_elem_of_In.
  split.
  - intros (y & Hy & Heq). apply String.eqb_eq in Heq. by subst.
  - intros Hx. exists x. split; [done | apply String.eqb_refl].
Qed.

Lemma array_includes_not_elem_of (l : list string) (x : string) :
  JS.array_includes l x = false <-> x ∉ l.
Proof.
  rewrite <- array_includes_elem_of. destruct (JS.array_includes l x); naive_solver.
Qed.

Lemma validatePath_eq (config : SandboxConfig) (requestedPath : string) (w : world) :
  validatePath config requestedPath w = (Ok (permitted config w requestedPath), w).
Proof. reflexivity. Qed.

Lemma readFile_eq (config : SandboxConfig) (filePath : string) (w : world) :
  readFile config filePath w =
    let fullPath := Path.join [workDir config; filePath] in
    if permitted config w fullPath then
      (Fs.readFile (w_cwd w) (w_fs w) fullPath,
       set_applog (w_applog w ++
         [("debug", "File read allowed",
           <["sessionId" := VStr (sessionId config)]>
             (<["path" := VStr filePath]> ∅))]) w)
    else
      (Err (AccessDenied filePath),
       (logSecurityEvent "file_access_denied"
          (<["sessionId" := VStr (sessionId config)]>
             (<["path" := VStr filePath]>
                (<["operation" := VStr "read"]> ∅))) w).2).
Proof.
  unfold readFile, bind. rewrite validatePath_eq. cbv beta iota zeta.
  by destruct (permitted config w _).
Qed.

Lemma writeFile_eq (config : SandboxConfig) (filePath content : string) (w : world) :
  writeFile config filePath content w =
    let fullPath := Path.join [workDir config; filePath] in
    let ext := JS.toLowerCase (Path.extname filePath) in
    if permitted config w fullPath then
      if JS.array_includes allowedExtensions ext then
        fs_writeFile fullPath content w
      else (Err (TypeNotAllowed ext), w)
    else (Err (AccessDenied filePath), w).
Proof.
  unfold writeFile, bind. rewrite validatePath_eq. cbv beta iota zeta.
  destruct (permitted config w _); [| done]. cbn [negb].
  by destruct (JS.array_includes _ _).
Qed.

Lemma readFile_fs (config : SandboxConfig) (filePath : string) (w : world) :
  w_fs (readFile config filePath w).2 = w_fs w
  /\ w_cwd (readFile config filePath w).2 = w_cwd w.
Proof.
  rewrite readFile_eq. simpl. by destruct (permitted config w _).
Qed.

(** The file system rejects with its own errors only. *)
Lemma namei_error (fuel : nat) (mk nofollow : bool) (t : gmap (list string) Fs.node)
    (cur todo : list string) (e : error) :
  (Fs.namei fuel mk nofollow t cur todo).2 = Err e -> exists code, e = FsError code.
Proof.
  revert t cur todo. induction fuel as [| fuel IH]; intros t cur todo; simpl;
    destruct (Fs.walk mk nofollow t cur todo) as [t' [q | cur' todo' | code]];
    simpl; try discriminate; try (intros [= <-]; eauto; fail).
  apply IH.
Qed.

Lemma Fs_writeFile_error (cwd : string) (t : gmap (list string) Fs.node)
    (path data : string) (e : error) :
  (Fs.writeFile cwd t path data).2 = Err e -> exists code, e = FsError code.
Proof.
  unfold Fs.writeFile, Fs.lookup.
  destruct (Fs.namei _ _ _ _ _ _).2 as [q | e'] eqn:Hn.
  - destruct q as [| c q]; [intros [= <-]; eauto |].
    destruct (t !! (c :: q)) as [[d | | tg] |]; simpl; try discriminate;
      intros [= <-]; eauto.
  - simpl. intros [= <-]. eapply namei_error, Hn.
Qed.

(** ** Blocked commands *)

(** C5. A command outside the whitelist is rejected with CommandBlocked
    before anything is spawned or registered, and one security event named
    command_blocked is logged that carries the session id, the command and
    its arguments.  The session id is assumed not to be the empty string,
    which the logger would replace by 'unknown'.  In particular
    [rm -rf /] in a fresh session is blocked and no process was created. *)
Theorem executeCommand_blocked :
  (forall (config : SandboxConfig) (w : world) (command : string)
          (args : list string) (processId : string),
      sessionId config <> "" ->
      command ∉ allowedCommands ->
      exists meta,
        executeCommand config command args processId w =
          (Err (CommandBlocked command),
           set_security (w_security w ++ [("command_blocked", meta)]) w)
        /\ meta !! "sessionId" = Some (VStr (sessionId config))
        /\ meta !! "command" = Some (VStr command)
        /\ meta !! "args" = Some (VArr args))
  /\ (let '(r, w') :=
        executeCommand Sample.config "rm" ["-rf"; "/"] "1-0.5" Sample.world0 in
      r = Err (CommandBlocked "rm") /\ w_spawned w' = [] /\ processes w' = ∅).
Proof.
  split.
  - intros config w command args processId Hsid Hcmd.
    apply array_includes_not_elem_of in Hcmd.
    unfold executeCommand. rewrite Hcmd. simpl.
    unfold bind, logSecurityEvent, throw. simpl.
    eexists. split; [reflexivity |].
    apply String.eqb_neq in Hsid.
    unfold sessionId_or_unknown. rewrite !lookup_insert_eq, Hsid.
    repeat split; by simplify_map_eq.
  - vm_compute. done.
Qed.

Lemma executeCommand_blocked_witness :
  exists meta,
    executeCommand Sample.config "rm" ["-rf"; "/"] "1-0.5" Sample.world0 =
      (Err (CommandBlocked "rm"),
       set_security (w_security Sample.world0 ++ [("command_blocked", meta)])
                    Sample.world0)
    /\ meta !! "sessionId" = Some (VStr "s1")
    /\ meta !! "command" = Some (VStr "rm")
    /\ meta !! "args" = Some (VArr ["-rf"; "/"]).
Proof.
  apply (proj1 executeCommand_blocked Sample.config Sample.world0 "rm" ["-rf"; "/"] "1-0.5").
  - discriminate.
  - compute_done.
Defined.

(** ** The extension check of [writeFile] *)

(** C6. Once the path is validated, [writeFile] fails with TypeNotAllowed
    exactly when the lower-cased extension of the path is not one of
    .pdf, .json, .txt, .py, .log, and then nothing else has happened.
    In the sample session test.exe is refused and test.pdf is written;
    an upper-case extension is accepted as well. *)
Theorem writeFile_type_check :
  (forall (config : SandboxConfig) (w : world) (filePath content : string),
      (validatePath config (Path.join [workDir config; filePath]) w).1 = Ok true ->
      let ext := JS.toLowerCase (Path.extname filePath) in
      ((exists x, (writeFile config filePath content w).1 = Err (TypeNotAllowed x))
         <-> ext ∉ allowedExtensions)
      /\ (ext ∉ allowedExtensions ->
          writeFile config filePath content w = (Err (TypeNotAllowed ext), w)))
  /\ writeFile Sample.config "test.exe" "x" Sample.world0
       = (Err (TypeNotAllowed ".exe"), Sample.world0)
  /\ (let '(r, w') := writeFile Sample.config "test.pdf" "x" Sample.world0 in
      r = Ok tt /\ w_fs w' !! ["tmp"; "s1"; "test.pdf"] = Some (Fs.File "x"))
  /\ (writeFile Sample.config "REPORT.PDF" "x" Sample.world0).1 = Ok tt.
Proof.
  split; [| by vm_compute].
  intros config w filePath content Hv ext.
  rewrite validatePath_eq in Hv. simpl in Hv. injection Hv as Hv.
  rewrite writeFile_eq. cbv zeta. rewrite Hv. fold ext.
  rewrite <- array_includes_not_elem_of.
  destruct (JS.array_includes allowedExtensions ext) eqn:Hext.
  - split; [| done]. split; [| done].
    intros [x Hx]. unfold fs_writeFile, fs_step in Hx.
    destruct (Fs.writeFile _ _ _ _) as [t' r] eqn:Hw. cbn [fst] in Hx.
    pose proof (Fs_writeFile_error (w_cwd w) (w_fs w)
      (Path.join [workDir config; filePath]) content (TypeNotAllowed x)) as He.
    rewrite Hw in He. destruct (He Hx) as [code Hc]. discriminate.
  - split; [| done]. split; [done |]. intros _. by exists ext.
Qed.

Lemma writeFile_type_check_witness :
  (exists x, (writeFile Sample.config "test.exe" "x" Sample.world0).1
               = Err (TypeNotAllowed x))
  <-> ".exe" ∉ allowedExtensions.
Proof.
  apply (proj1 writeFile_type_check Sample.config Sample.world0 "test.exe" "x").
  vm_compute. reflexivity.
Defined.

(** ** Audit events on denied paths *)

Lemma fs_step_security (op : string -> gmap (list string) Fs.node ->
                              gmap (list string) Fs.node * result unit) (w : world) :
  w_security (fs_step op w).2 = w_security w /\ w_cwd (fs_step op w).2 = w_cwd w.
Proof. unfold fs_step. by destruct (op _ _). Qed.

Lemma writeFile_security (config : SandboxConfig) (filePath content : string)
    (w : world) :
  w_security (writeFile config filePath content w).2 = w_security w.
Proof.
  rewrite writeFile_eq. cbv zeta.
  destruct (permitted config w _); [| done].
  destruct (JS.array_includes _ _); [| done].
  apply fs_step_security.
Qed.

Lemma copyFiles_security (config : SandboxConfig) (files : list (string * string))
    (w : world) :
  w_security (copyFiles config files w).2 = w_security w.
Proof.
  revert w. induction files as [| [source destination] rest IH]; intros w; [done |].
  cbn [copyFiles]. unfold bind at 1. rewrite validatePath_eq.
  destruct (permitted config w _); [| done]. cbn [negb].
  unfold bind, fs_mkdir_recursive, fs_copyFile.
  pose proof (fs_step_security
    (fun cwd t => Fs.mkdir_recursive cwd t
       (Path.dirname (Path.join [workDir config; destination]))) w) as [H1 _].
  destruct (fs_step _ w) as [[[] | e] w1]; [| done].
  pose proof (fs_step_security
    (fun cwd t => Fs.copyFile cwd t source
       (Path.join [workDir config; destination])) w1) as [H2 _].
  destruct (fs_step _ w1) as [[[] | e] w2]; simpl in *; [| congruence].
  rewrite IH. congruence.
Qed.

(** C9. [readFile] logs a file_access_denied event with the session id,
    the operation and the raw path before it throws, and so does
    [executeCommand] for a blocked command; [writeFile] and [copyFiles]
    never write to the security log, so their access-denied failures
    leave no audit event. *)
Theorem access_denied_audit :
  (let '(r, w') := readFile Sample.config "../../etc/passwd" Sample.world0 in
   r = Err (AccessDenied "../../etc/passwd")
   /\ exists meta, w_security w' = [("file_access_denied", meta)]
        /\ meta !! "sessionId" = Some (VStr "s1")
        /\ meta !! "operation" = Some (VStr "read")
        /\ meta !! "path" = Some (VStr "../../etc/passwd"))
  /\ writeFile Sample.config "../../etc/cron.txt" "x" Sample.world0
       = (Err (AccessDenied "../../etc/cron.txt"), Sample.world0)
  /\ copyFiles Sample.config [("/home/form.pdf", "../../etc/form.pdf")] Sample.world0
       = (Err (CopyDenied "../../etc/form.pdf"), Sample.world0)
  /\ (exists meta,
        w_security (executeCommand Sample.config "rm" ["-rf"; "/"] "1-0.5"
                      Sample.world0).2 = [("command_blocked", meta)])
  /\ (forall (config : SandboxConfig) (w : world) (filePath content : string),
        w_security (writeFile config filePath content w).2 = w_security w)
  /\ (forall (config : SandboxConfig) (w : world) (files : list (string * string)),
        w_security (copyFiles config files w).2 = w_security w).
Proof.
  split; [| split; [| split; [| split; [| split]]]].
  - vm_compute. split; [done |]. eexists. split; [reflexivity |].
    by vm_compute.
  - by vm_compute.
  - by vm_compute.
  - eexists. by vm_compute.
  - intros. apply writeFile_security.
  - intros. apply copyFiles_security.
Qed.

(** ** Parent directories *)

Lemma Fs_writeFile_directories (cwd : string) (t : gmap (list string) Fs.node)
    (path data : string) (k : list string) :
  is_directory ((Fs.writeFile cwd t path data).1 !! k) = is_directory (t !! k).
Proof.
  unfold Fs.writeFile. destruct (Fs.lookup cwd t path) as [[| c q] | e]; try done.
  destruct (t !! (c :: q)) as [[d | | tg] |] eqn:Hq; try done; simpl;
    (destruct (decide (c :: q = k)) as [<- | Hne];
       [by rewrite lookup_insert_eq, Hq | by rewrite lookup_insert_ne]).
Qed.

(** C7. [writeFile] hands the path to the file system as it is and
    creates no directory: with a missing parent directory the write is
    rejected (ENOENT) and nothing is written, whereas [copyFiles] creates
    the directories of its destination first.  An existing file is
    overwritten. *)
Theorem writeFile_missing_parent :
  writeFile Sample.config "output/filled.pdf" "x" Sample.world0
    = (Err (FsError "ENOENT"), Sample.world0)
  /\ (forall (config : SandboxConfig) (w : world) (filePath content : string)
             (k : list string),
        is_directory (w_fs (writeFile config filePath content w).2 !! k)
          = is_directory (w_fs w !! k))
  /\ (let '(r, w') :=
        copyFiles Sample.config [("/home/form.pdf", "output/form.pdf")]
                  Sample.world0 in
      r = Ok tt
      /\ w_fs w' !! ["tmp"; "s1"; "output"] = Some Fs.Directory
      /\ w_fs w' !! ["tmp"; "s1"; "output"; "form.pdf"] = Some (Fs.File "%PDF"))
  /\ (let '(r, w') := writeFile Sample.config "hello.txt" "new" Sample.world0 in
      r = Ok tt /\ w_fs w' !! ["tmp"; "s1"; "hello.txt"] = Some (Fs.File "new")).
Proof.
  split; [by vm_compute |]. split; [| by vm_compute].
  intros config w filePath content k.
  rewrite writeFile_eq. cbv zeta.
  destruct (permitted config w _); [| done].
  destruct (JS.array_includes _ _); [| done].
  unfold fs_writeFile, fs_step.
  pose proof (Fs_writeFile_directories (w_cwd w) (w_fs w)
    (Path.join [workDir config; filePath]) content k) as H.
  by destruct (Fs.writeFile _ _ _ _).
Qed.

(** ** The containment check *)

(** C1. In the session rooted at /tmp/s1 the path /tmp/s1/test.txt is
    permitted and /etc/passwd is denied.  But the test is a prefix test
    on strings: /tmp/s1evil/secret.txt, which is not contained in /tmp/s1,
    is permitted, also when it is reached by the relative path
    ../s1evil/secret.txt, and [readFile] then returns the content of that
    file outside the root. *)
Theorem validatePath_sibling_prefix :
  validatePath Sample.config "/tmp/s1/test.txt" Sample.world0 = (Ok true, Sample.world0)
  /\ validatePath Sample.config "/etc/passwd" Sample.world0 = (Ok false, Sample.world0)
  /\ validatePath Sample.config "../../etc/passwd" Sample.world0
       = (Ok false, Sample.world0)
  /\ Path.resolve "/home" ["/tmp/s1"; "/tmp/s1evil/secret.txt"] = "/tmp/s1evil/secret.txt"
  /\ ~ contained "/tmp/s1" "/tmp/s1evil/secret.txt"
  /\ validatePath Sample.config "/tmp/s1evil/secret.txt" Sample.world0
       = (Ok true, Sample.world0)
  /\ Path.resolve "/home" ["/tmp/s1"; "../s1evil/secret.txt"] = "/tmp/s1evil/secret.txt"
  /\ validatePath Sample.config "../s1evil/secret.txt" Sample.world0
       = (Ok true, Sample.world0)
  /\ (readFile Sample.config "../s1evil/secret.txt" Sample.world0).1 = Ok "secret".
Proof.
  repeat split; try by vm_compute.
  unfold contained. vm_compute. intros [k Hk]. discriminate.
Qed.

(** ** Editing *)

Lemma permitted_cwd (config : SandboxConfig) (w w1 : world) (p : string) :
  w_cwd w1 = w_cwd w -> permitted config w1 p = permitted config w p.
Proof. unfold permitted. by intros ->. Qed.

Lemma readFile_ok_inv (config : SandboxConfig) (filePath cur : string) (w w1 : world) :
  readFile config filePath w = (Ok cur, w1) ->
  permitted config w (Path.join [workDir config; filePath]) = true
  /\ Fs.readFile (w_cwd w) (w_fs w) (Path.join [workDir config; filePath]) = Ok cur
  /\ w_fs w1 = w_fs w /\ w_cwd w1 = w_cwd w.
Proof.
  pose proof (readFile_fs config filePath w) as [Hfs Hcwd].
  rewrite readFile_eq in *. cbv zeta in *.
  destruct (permitted config w _); [| discriminate].
  intros [= Hr <-]. done.
Qed.

Lemma handleEdit_eq (config : SandboxConfig) (filePath oldContent newContent : string)
    (w : world) :
  handleEdit config filePath oldContent newContent w =
    match readFile config filePath w with
    | (Err e, w1) => (Err (Wrapped "Failed to edit file" e), w1)
    | (Ok currentContent, w1) =>
        if JS.includes currentContent oldContent then
          match writeFile config filePath
                  (JS.replace currentContent oldContent newContent) w1 with
          | (Err e, w2) => (Err (Wrapped "Failed to edit file" e), w2)
          | (Ok u, w2) => (Ok u, w2)
          end
        else (Err (Wrapped "Failed to edit file" ContentNotFound), w1)
    end.
Proof.
  unfold handleEdit, try_catch, bind.
  destruct (readFile config filePath w) as [[cur | e] w1]; [| done].
  by destruct (JS.includes cur oldContent).
Qed.

(** C10. When the extension of the path is not one that [writeFile]
    accepts, [handleEdit] always fails and leaves the file system as it
    was; when the file can be read and contains the old content, the
    failure is the TypeNotAllowed of the write-back.  The data file
    data.csv of the sample session can be read through [handleRead] but
    not edited. *)
Theorem handleEdit_disallowed_extension :
  (forall (config : SandboxConfig) (w : world)
          (filePath oldContent newContent : string),
      JS.toLowerCase (Path.extname filePath) ∉ allowedExtensions ->
      (exists e w',
          handleEdit config filePath oldContent newContent w
            = (Err (Wrapped "Failed to edit file" e), w')
          /\ w_fs w' = w_fs w)
      /\ (forall (currentContent : string) (w1 : world),
            readFile config filePath w = (Ok currentContent, w1) ->
            JS.includes currentContent oldContent = true ->
            handleEdit config filePath oldContent newContent w
              = (Err (Wrapped "Failed to edit file"
                        (TypeNotAllowed (JS.toLowerCase (Path.extname filePath)))),
                 w1)))
  /\ (handleRead Sample.config "data.csv" Sample.world0).1 = Ok "Hello Hello"
  /\ (handleEdit Sample.config "data.csv" "Hello" "Hi" Sample.world0).1
       = Err (Wrapped "Failed to edit file" (TypeNotAllowed ".csv")).
Proof.
  split; [| by vm_compute].
  intros config w filePath oldContent newContent Hext.
  apply array_includes_not_elem_of in Hext.
  rewrite handleEdit_eq.
  destruct (readFile config filePath w) as [[cur | e] w1] eqn:Hr.
  - apply readFile_ok_inv in Hr as (Hp & _ & Hfs & Hcwd).
    rewrite writeFile_eq. cbv zeta.
    rewrite (permitted_cwd config w w1 _ Hcwd), Hp, Hext.
    split.
    + destruct (JS.includes cur oldContent); eauto.
    + intros ? ? [= <- <-] ->. done.
  - pose proof (readFile_fs config filePath w) as [Hfs _]. rewrite Hr in Hfs.
    split; [eauto | discriminate].
Qed.

Lemma handleEdit_disallowed_extension_witness :
  exists e w',
    handleEdit Sample.config "data.csv" "Hello" "Hi" Sample.world0
      = (Err (Wrapped "Failed to edit file" e), w')
    /\ w_fs w' = w_fs Sample.world0.
Proof.
  apply (proj1 handleEdit_disallowed_extension
           Sample.config Sample.world0 "data.csv" "Hello" "Hi").
  compute_done.
Defined.

(** *** Occurrences of a string in another *)

Lemma append_nil_l (a : string) : "" +:+ a = a.
Proof. reflexivity. Qed.

Lemma append_cons (x : ascii) (a b : string) :
  String x a +:+ b = String x (a +:+ b).
Proof. reflexivity. Qed.

Ltac simpl_append := rewrite ?append_nil_l, ?append_cons in *.

Lemma append_assoc (a b c : string) : (a +:+ b) +:+ c = a +:+ b +:+ c.
Proof. induction a as [| x a IH]; simpl_append; [done | by f_equal]. Qed.

Lemma append_empty_r (a : string) : a +:+ "" = a.
Proof. induction a as [| x a IH]; simpl_append; [done | by f_equal]. Qed.

Lemma length_append (a b : string) :
  String.length (a +:+ b) = (String.length a + String.length b)%nat.
Proof.
  induction a as [| x a IH]; simpl_append; [done |]. simpl. by rewrite IH.
Qed.

Lemma prefix_spec (p s : string) :
  String.prefix p s = true <-> exists rest, s = p +:+ rest.
Proof.
  revert s. induction p as [| x p IH]; intros s.
  - split; [intros _; by exists s | by destruct s].
  - destruct s as [| y s].
    + split; [done | by intros [rest [=]]].
    + cbn [String.prefix]. destruct (ascii_dec x y) as [-> | Hne].
      * rewrite IH. split; intros [rest Hr]; exists rest; simpl_append; congruence.
      * split; [done |]. intros [rest Hr]. simpl_append.
        injection Hr as Hxy _. by destruct Hne.
Qed.

Lemma substring_whole (s : string) : String.substring 0 (String.length s) s = s.
Proof. induction s as [| x s IH]; simpl; [done | by f_equal]. Qed.

Lemma substring_skip (a s : string) (m : nat) :
  String.substring (String.length a) m (a +:+ s) = String.substring 0 m s.
Proof. induction a as [| x a IH]; simpl_append; [done | apply IH]. Qed.

(** [indexOf] finds the first occurrence, and [replace] cuts the string
    around it. *)
Lemma indexOf_Some (s pattern : string) (pos : nat) :
  JS.indexOf s pattern = Some pos ->
  exists pre post,
    s = pre +:+ pattern +:+ post
    /\ String.substring 0 pos s = pre
    /\ String.substring (pos + String.length pattern)
         (String.length s - (pos + String.length pattern)) s = post
    /\ forall pre' post', s = pre' +:+ pattern +:+ post' ->
         (String.length pre <= String.length pre')%nat.
Proof.
  unfold JS.indexOf. revert pos. induction s as [| b s IH]; intros pos.
  - destruct pattern; [| discriminate]. intros [= <-].
    exists "", "". repeat split; simpl; auto with lia.
  - cbn [String.index].
    destruct (String.prefix pattern (String b s)) eqn:Hp.
    + intros [= <-]. apply prefix_spec in Hp as [rest Hr].
      exists "", rest. rewrite Hr. simpl_append.
      repeat split; [by destruct (pattern +:+ rest) | | simpl; lia].
      rewrite length_append, Nat.add_0_l, Nat.add_sub_swap, Nat.sub_diag by lia.
      rewrite substring_skip. apply substring_whole.
    + destruct (String.index 0 pattern s) as [n |] eqn:Hn; [| discriminate].
      intros [= <-]. destruct (IH n eq_refl) as (pre & post & Hs & Hpre & Hpost & Hmin).
      exists (String b pre), post. repeat split.
      * simpl_append. by rewrite <- Hs.
      * simpl. by rewrite Hpre.
      * simpl. exact Hpost.
      * intros [| c pre'] post' Hd.
        -- assert (String.prefix pattern (String b s) = true) as Ht
             by (apply prefix_spec; exists post'; exact Hd).
           congruence.
        -- simpl_append. injection Hd as _ Hd. simpl.
           specialize (Hmin pre' post' Hd). lia.
Qed.

Lemma indexOf_None (s pattern : string) :
  JS.indexOf s pattern = None -> ~ is_substring pattern s.
Proof.
  unfold JS.indexOf, is_substring. induction s as [| b s IH].
  - destruct pattern; [discriminate |].
    intros _ ([| c pre] & post & Hd); simpl_append; discriminate.
  - cbn [String.index].
    destruct (String.prefix pattern (String b s)) eqn:Hp; [discriminate |].
    destruct (String.index 0 pattern s) as [n |] eqn:Hn; [discriminate |].
    intros _ ([| c pre] & post & Hd).
    + assert (String.prefix pattern (String b s) = true) as Ht
        by (apply prefix_spec; exists post; exact Hd).
      congruence.
    + simpl_append. injection Hd as _ Hd. apply IH; eauto.
Qed.

Lemma includes_spec (s pattern : string) :
  JS.includes s pattern = true <-> is_substring pattern s.
Proof.
  unfold JS.includes. destruct (JS.indexOf s pattern) as [pos |] eqn:Hi.
  - split; [| done]. intros _.
    apply indexOf_Some in Hi as (pre & post & Hs & _). by exists pre, post.
  - split; [done |]. intros Hs. by apply indexOf_None in Hi.
Qed.

Lemma getSubstitution_dollar_free (matched before after template : string) :
  dollar_free template = true ->
  JS.getSubstitution matched before after template = template.
Proof.
  induction template as [| c t IH]; [done |].
  cbn [dollar_free JS.getSubstitution]. intros [Hc Ht]%andb_true_iff.
  apply negb_true_iff in Hc. rewrite Hc, IH; done.
Qed.

Lemma replace_first (s pattern replacement : string) :
  dollar_free replacement = true ->
  is_substring pattern s ->
  exists pre post,
    s = pre +:+ pattern +:+ post
    /\ (forall pre' post', s = pre' +:+ pattern +:+ post' ->
          (String.length pre <= String.length pre')%nat)
    /\ JS.replace s pattern replacement = pre +:+ replacement +:+ post.
Proof.
  intros Hd Hs. unfold JS.replace.
  destruct (JS.indexOf s pattern) as [pos |] eqn:Hi.
  - destruct (indexOf_Some _ _ _ Hi) as (pre & post & Heq & Hpre & Hpost & Hmin).
    exists pre, post. rewrite Hpre, Hpost, getSubstitution_dollar_free by done.
    done.
  - by apply indexOf_None in Hi.
Qed.

(** *** Writing a file back *)

Lemma walk_tree (nofollow : bool) (t : gmap (list string) Fs.node)
    (cur todo : list string) :
  (Fs.walk false nofollow t cur todo).1 = t.
Proof.
  revert cur. induction todo as [| c rest IH]; intros cur; [done |].
  cbn [Fs.walk]. destruct (_ || _); [apply IH |].
  destruct (String.eqb c ".."); [apply IH |].
  destruct (t !! (cur ++ [c])) as [[d | | target] |]; [| apply IH | |].
  - by destruct rest.
  - destruct rest; [by destruct nofollow | done].
  - by destruct rest.
Qed.

Lemma walk_insert_file (nofollow : bool) (t : gmap (list string) Fs.node)
    (q : list string) (d0 d : string) (cur todo : list string) :
  t !! q = Some (Fs.File d0) ->
  (Fs.walk false nofollow (<[q := Fs.File d]> t) cur todo).2
    = (Fs.walk false nofollow t cur todo).2.
Proof.
  intros Hq. revert cur. induction todo as [| c rest IH]; intros cur; [done |].
  cbn [Fs.walk]. destruct (_ || _); [apply IH |].
  destruct (String.eqb c ".."); [apply IH |].
  destruct (decide (q = cur ++ [c])) as [-> | Hne].
  - rewrite lookup_insert_eq, Hq. by destruct rest.
  - rewrite lookup_insert_ne by done.
    destruct (t !! (cur ++ [c])) as [[d1 | | target] |]; [| apply IH | |].
    + by destruct rest.
    + destruct rest; [by destruct nofollow | done].
    + by destruct rest.
Qed.

Lemma namei_insert_file (fuel : nat) (nofollow : bool)
    (t : gmap (list string) Fs.node) (q : list string) (d0 d : string)
    (cur todo : list string) :
  t !! q = Some (Fs.File d0) ->
  (Fs.namei fuel false nofollow (<[q := Fs.File d]> t) cur todo).2
    = (Fs.namei fuel false nofollow t cur todo).2.
Proof.
  intros Hq. revert cur todo. induction fuel as [| fuel IH]; intros cur todo;
    cbn [Fs.namei];
    pose proof (walk_insert_file nofollow t q d0 d cur todo Hq) as Hw;
    pose proof (walk_tree nofollow t cur todo) as Ht;
    pose proof (walk_tree nofollow (<[q := Fs.File d]> t) cur todo) as Ht';
    destruct (Fs.walk false nofollow t cur todo) as [t1 r1];
    destruct (Fs.walk false nofollow (<[q := Fs.File d]> t) cur todo) as [t2 r2];
    simpl in *; subst; destruct r1; done.
Qed.

Lemma Fs_write_read (cwd : string) (t : gmap (list string) Fs.node)
    (path cur data : string) :
  Fs.readFile cwd t path = Ok cur ->
  exists q,
    t !! q = Some (Fs.File cur)
    /\ Fs.writeFile cwd t path data = (<[q := Fs.File data]> t, Ok tt)
    /\ Fs.readFile cwd (<[q := Fs.File data]> t) path = Ok data.
Proof.
  unfold Fs.readFile, Fs.writeFile.
  destruct (Fs.lookup cwd t path) as [[| c q] | e] eqn:Hl; try discriminate.
  destruct (t !! (c :: q)) as [[d0 | | target] |] eqn:Hq; try discriminate.
  intros [= ->]. exists (c :: q). split; [done |]. split; [done |].
  unfold Fs.lookup in *. rewrite (namei_insert_file _ _ _ _ cur data _ _ Hq), Hl.
  by rewrite lookup_insert_eq.
Qed.

(** C8, as amended.  Let the file be readable through the sandbox, its
    extension be accepted by [writeFile], and the new content hold no
    [$].  If the old content does not occur in the file, [handleEdit]
    fails with ContentNotFound and writes nothing.  If it occurs, the file
    is cut around the first occurrence, the new content is put in its
    place, and the result is written back: reading the file again gives
    it.  In the sample session, editing hello.txt, which holds
    "Hello Hello", gives "Hi Hello", and editing with an old content that
    is absent fails with ContentNotFound. *)
Theorem handleEdit_first_occurrence :
  (forall (config : SandboxConfig) (w w1 : world)
          (filePath oldContent newContent currentContent : string),
      readFile config filePath w = (Ok currentContent, w1) ->
      JS.toLowerCase (Path.extname filePath) ∈ allowedExtensions ->
      dollar_free newContent = true ->
      (~ is_substring oldContent currentContent ->
         handleEdit config filePath oldContent newContent w
           = (Err (Wrapped "Failed to edit file" ContentNotFound), w1))
      /\ (is_substring oldContent currentContent ->
          exists pre post w2,
            currentContent = pre +:+ oldContent +:+ post
            /\ (forall pre' post',
                  currentContent = pre' +:+ oldContent +:+ post' ->
                  (String.length pre <= String.length pre')%nat)
            /\ handleEdit config filePath oldContent newContent w = (Ok tt, w2)
            /\ (readFile config filePath w2).1 = Ok (pre +:+ newContent +:+ post)))
  /\ (let '(r, w') :=
        handleEdit Sample.config "hello.txt" "Hello" "Hi" Sample.world0 in
      r = Ok tt /\ (readFile Sample.config "hello.txt" w').1 = Ok "Hi Hello")
  /\ (handleEdit Sample.config "hello.txt" "Nope" "X" Sample.world0).1
       = Err (Wrapped "Failed to edit file" ContentNotFound).
Proof.
  split; [| by vm_compute].
  intros config w w1 filePath oldContent newContent cur Hr Hext Hd.
  apply array_includes_elem_of in Hext.
  rewrite handleEdit_eq, Hr.
  apply readFile_ok_inv in Hr as (Hp & Hread & Hfs & Hcwd).
  split.
  - intros Hn. destruct (JS.includes cur oldContent) eqn:Hi; [| done].
    by apply includes_spec in Hi.
  - intros Hs. destruct (replace_first cur oldContent newContent Hd Hs)
      as (pre & post & Hcut & Hmin & Hrep).
    apply includes_spec in Hs. rewrite Hs, Hrep.
    rewrite writeFile_eq. cbv zeta.
    rewrite (permitted_cwd config w w1 _ Hcwd), Hp, Hext.
    unfold fs_writeFile, fs_step. rewrite Hcwd, Hfs.
    destruct (Fs_write_read _ _ _ _ (pre +:+ newContent +:+ post) Hread)
      as (q & Hq & Hw & Hback).
    rewrite Hw. exists pre, post. eexists. repeat split; [done | done |].
    rewrite readFile_eq. cbv zeta. cbn [w_cwd w_fs set_fs].
    rewrite (permitted_cwd config w (set_fs _ w1) _ Hcwd), Hp.
    by rewrite Hcwd.
Qed.

Lemma handleEdit_first_occurrence_witness :
  exists pre post w2,
    "Hello Hello" = pre +:+ "Hello" +:+ post
    /\ (forall pre' post',
          "Hello Hello" = pre' +:+ "Hello" +:+ post' ->
          (String.length pre <= String.length pre')%nat)
    /\ handleEdit Sample.config "hello.txt" "Hello" "Hi" Sample.world0 = (Ok tt, w2)
    /\ (readFile Sample.config "hello.txt" w2).1 = Ok (pre +:+ "Hi" +:+ post).
Proof.
  refine (proj2 (proj1 handleEdit_first_occurrence Sample.config Sample.world0
           (readFile Sample.config "hello.txt" Sample.world0).2
           "hello.txt" "Hello" "Hi" "Hello Hello" _ _ _) _).
  - vm_compute. reflexivity.
  - compute_done.
  - reflexivity.
  - exists "", " Hello". reflexivity.
Defined.

(** C8 as stated fails on a file whose extension [writeFile] refuses:
    data.csv can be read and holds "Hello Hello", the old content "Hello"
    occurs in it, and yet the edit is rejected with TypeNotAllowed and the
    file keeps its content instead of becoming "Hi Hello". *)
Lemma handleEdit_refused_extension :
  (readFile Sample.config "data.csv" Sample.world0).1 = Ok "Hello Hello"
  /\ is_substring "Hello" "Hello Hello"
  /\ (let '(r, w') :=
        handleEdit Sample.config "data.csv" "Hello" "Hi" Sample.world0 in
      r = Err (Wrapped "Failed to edit file" (TypeNotAllowed ".csv"))
      /\ r <> Err (Wrapped "Failed to edit file" ContentNotFound)
      /\ (readFile Sample.config "data.csv" w').1 = Ok "Hello Hello").
Proof.
  split; [by vm_compute |]. split; [by exists "", " Hello" |].
  vm_compute. by repeat split.
Qed.

(** The replacement is a template: [$&] stands for the old content. *)
Example handleEdit_replacement_pattern :
  let '(r, w') := handleEdit Sample.config "hello.txt" "Hello" "$&!" Sample.world0 in
  r = Ok tt /\ (readFile Sample.config "hello.txt" w').1 = Ok "Hello! Hello".
Proof. by vm_compute. Qed.

(** ** Symbolic links *)

Lemma segments_nonempty (a : string) : Path.segments a <> [].
Proof.
  destruct a as [| x a]; [done |]. cbn [Path.segments].
  destruct (Path.is_slash x); [done |]. by destruct (Path.segments a).
Qed.

Lemma segments_append (a b : string) :
  Path.segments (a +:+ "/" +:+ b) = Path.segments a ++ Path.segments b.
Proof.
  induction a as [| x a IH]; [reflexivity |].
  rewrite append_cons. cbn [Path.segments]. rewrite IH.
  destruct (Path.is_slash x); [reflexivity |].
  pose proof (segments_nonempty a).
  by destruct (Path.segments a).
Qed.

Lemma normalize_step_plain (allowAboveRoot : bool) (res l : list string) :
  forallb plain_segment l = true ->
  fold_left (Path.normalize_step allowAboveRoot) l res = res ++ l.
Proof.
  revert res. induction l as [| seg l IH]; intros res; simpl.
  - by rewrite app_nil_r.
  - intros [Hseg Hl]%andb_true_iff. rewrite IH by done.
    unfold plain_segment in Hseg.
    apply andb_true_iff in Hseg as [[H1 H2]%andb_true_iff H3].
    apply negb_true_iff in H1, H2, H3.
    unfold Path.normalize_step. rewrite H1, H2, H3. simpl.
    by rewrite <- app_assoc.
Qed.

Lemma join_segments_prefix (res l : list string) :
  exists rest, Path.join_segments (res ++ l) = Path.join_segments res +:+ rest.
Proof.
  induction res as [| x [| y res] IH].
  - by exists (Path.join_segments l).
  - destruct l as [| z l]; simpl.
    + exists "". by rewrite append_empty_r.
    + by eexists.
  - destruct IH as [rest IH]. exists rest.
    change (x +:+ "/" +:+ Path.join_segments ((y :: res) ++ l)
            = (x +:+ "/" +:+ Path.join_segments (y :: res)) +:+ rest).
    by rewrite IH, !append_assoc.
Qed.

Lemma resolve_root (cwd root : string) :
  Path.isAbsolute root = true ->
  Path.resolve cwd [root] =
    "/" +:+ Path.join_segments
              (fold_left (Path.normalize_step false) (Path.segments root) []).
Proof.
  intros Habs. unfold Path.resolve. cbn [rev app Path.resolve_loop].
  destruct root as [| c root]; [discriminate |].
  cbn [String.eqb]. rewrite Habs. cbn [negb].
  unfold Path.normalizeString.
  by rewrite segments_append, fold_left_app.
Qed.

Lemma resolve_plain (cwd root p : string) :
  Path.isAbsolute root = true ->
  forallb plain_segment (Path.segments p) = true ->
  Path.resolve cwd [root; p] =
    "/" +:+ Path.join_segments
              (fold_left (Path.normalize_step false) (Path.segments root) []
               ++ Path.segments p).
Proof.
  intros Habs Hp. unfold Path.resolve. cbn [rev app Path.resolve_loop].
  destruct p as [| d p]; [discriminate |].
  assert (Path.isAbsolute (String d p) = false) as Hrel.
  { cbn [Path.isAbsolute]. cbn [Path.segments] in Hp.
    by destruct (Path.is_slash d). }
  cbn [String.eqb]. rewrite Hrel.
  destruct root as [| c root]; [discriminate |].
  cbn [String.eqb]. rewrite Habs. cbn [negb].
  unfold Path.normalizeString.
  rewrite segments_append, fold_left_app, segments_append, fold_left_app.
  rewrite (normalize_step_plain _ _ (Path.segments (String d p))) by done.
  reflexivity.
Qed.

(** C2, as amended.  [validatePath] resolves no symbolic link: whatever
    the file system holds, a relative path made of plain segments is
    permitted in a session whose root is absolute, normalized and in the
    allowed-path set. *)
Theorem validatePath_lexical :
  forall (config : SandboxConfig) (w : world) (requestedPath : string),
    Path.isAbsolute (workDir config) = true ->
    Path.resolve (w_cwd w) [workDir config] = workDir config ->
    workDir config ∈ allowedPaths config ->
    forallb plain_segment (Path.segments requestedPath) = true ->
    forall t : gmap (list string) Fs.node,
      validatePath config requestedPath (set_fs t w) = (Ok true, set_fs t w).
Proof.
  intros config w p Habs Hnorm Hin Hp t.
  rewrite validatePath_eq. f_equal. f_equal.
  unfold permitted. apply existsb_exists. exists (workDir config).
  split; [by apply list_elem_of_In |].
  cbn [w_cwd set_fs]. rewrite resolve_plain by done.
  rewrite resolve_root in Hnorm by done.
  unfold JS.startsWith. apply prefix_spec.
  remember (fold_left (Path.normalize_step false)
              (Path.segments (workDir config)) []) as res eqn:Hres.
  destruct (join_segments_prefix res (Path.segments p)) as [rest Hrest].
  exists rest. rewrite Hrest, <- Hnorm.
  by rewrite append_assoc.
Qed.

Lemma validatePath_lexical_witness :
  validatePath Sample.config "link/passwd" (set_fs Sample.tree Sample.world0)
    = (Ok true, set_fs Sample.tree Sample.world0).
Proof.
  apply (validatePath_lexical Sample.config Sample.world0 "link/passwd").
  - reflexivity.
  - vm_compute. reflexivity.
  - compute_done.
  - vm_compute. reflexivity.
Defined.

(** C2 as stated fails: /tmp/s1/link is a symbolic link to /etc planted in
    the root /tmp/s1; the path link/passwd leads to /etc/passwd, yet it is
    permitted and [readFile] returns the content of /etc/passwd. *)
Lemma validatePath_symlink_escape :
  leaves_root_through_symlink Sample.config Sample.world0 "link/passwd"
  /\ validatePath Sample.config "link/passwd" Sample.world0
       = (Ok true, Sample.world0)
  /\ (readFile Sample.config "link/passwd" Sample.world0).1 = Ok "root:x:0:0".
Proof.
  split; [| by vm_compute].
  exists ["tmp"; "s1"; "link"], "/etc", ["etc"; "passwd"].
  split; [by exists ["link"] |].
  split; [by exists ["passwd"] |].
  split; [by vm_compute |].
  split; [by vm_compute |].
  vm_compute. intros [k Hk]. discriminate.
Qed.

(** ** Spawned commands *)

Section Processes.

Variable config : SandboxConfig.







Lemma settle_processId (p : promise) (cl : closure) :
  cl_processId (settle p cl) = cl_processId cl.
Proof. done. Qed.



Lemma on_close_eq (child : nat) (code : option Z) (w : world) (cl : closure) :
  w_calls w !! child = Some cl ->
  on_close child code w =
    update_closure child
      (settle (close_outcome code (cl_stdout cl) (cl_stderr cl)) cl)
      (processes_delete (cl_processId cl) w).
Proof.
  intros Hcl. unfold on_close, with_closure. rewrite Hcl.
  by destruct code as [[| p | p] |].
Qed.







(** *** One call, from its start to its outcome *)


















End Processes.



(** * More of the sandbox *)

(** ** Reading back what was written *)

Lemma walk_insert_new (nofollow : bool) (t : gmap (list string) Fs.node)
    (q : list string) (d : string) (cur todo : list string) :
  t !! q = None ->
  (forall code, (Fs.walk false nofollow t cur todo).2 <> Fs.Fail code) ->
  (Fs.walk false nofollow (<[q := Fs.File d]> t) cur todo).2
    = (Fs.walk false nofollow t cur todo).2.
Proof.
  intros Hq. revert cur. induction todo as [| c rest IH]; intros cur; [done |].
  cbn [Fs.walk]. destruct (_ || _); [apply IH |].
  destruct (String.eqb c ".."); [apply IH |].
  destruct (decide (q = cur ++ [c])) as [-> | Hne].
  - rewrite lookup_insert_eq, Hq. destruct rest; [done |].
    intros Hf. by destruct (Hf "ENOENT").
  - rewrite lookup_insert_ne by done.
    destruct (t !! (cur ++ [c])) as [[d1 | | target] |]; [| apply IH | |].
    + by destruct rest.
    + destruct rest; [by destruct nofollow | done].
    + by destruct rest.
Qed.

Lemma namei_insert_new (fuel : nat) (nofollow : bool)
    (t : gmap (list string) Fs.node) (q p : list string) (d : string)
    (cur todo : list string) :
  t !! q = None ->
  (Fs.namei fuel false nofollow t cur todo).2 = Ok p ->
  (Fs.namei fuel false nofollow (<[q := Fs.File d]> t) cur todo).2 = Ok p.
Proof.
  intros Hq. revert cur todo. induction fuel as [| fuel IH]; intros cur todo;
    cbn [Fs.namei];
    pose proof (walk_insert_new nofollow t q d cur todo Hq) as Hw;
    pose proof (walk_tree nofollow t cur todo) as Ht;
    pose proof (walk_tree nofollow (<[q := Fs.File d]> t) cur todo) as Ht';
    destruct (Fs.walk false nofollow t cur todo) as [t1 r1];
    destruct (Fs.walk false nofollow (<[q := Fs.File d]> t) cur todo) as [t2 r2];
    simpl in *; subst; destruct r1; try done;
    rewrite Hw by done; try done.
  apply IH.
Qed.

Lemma Fs_writeFile_readFile (cwd : string) (t t' : gmap (list string) Fs.node)
    (path data : string) :
  Fs.writeFile cwd t path data = (t', Ok tt) ->
  Fs.readFile cwd t' path = Ok data.
Proof.
  unfold Fs.readFile, Fs.writeFile.
  destruct (Fs.lookup cwd t path) as [[| c q] | e] eqn:Hl; try discriminate.
  unfold Fs.lookup in *.
  destruct (t !! (c :: q)) as [[d0 | | target] |] eqn:Hq; try discriminate;
    intros [= <-].
  - rewrite (namei_insert_file _ _ _ _ d0 data _ _ Hq), Hl.
    by rewrite lookup_insert_eq.
  - rewrite (namei_insert_new _ _ _ _ (c :: q) data _ _ Hq Hl).
    by rewrite lookup_insert_eq.
Qed.

Lemma fs_writeFile_ok_inv (path data : string) (w w' : world) :
  fs_writeFile path data w = (Ok tt, w') ->
  exists t', Fs.writeFile (w_cwd w) (w_fs w) path data = (t', Ok tt)
             /\ w' = set_fs t' w.
Proof.
  unfold fs_writeFile, fs_step.
  destruct (Fs.writeFile _ _ _ _) as [t' [[] | e]]; intros [= <-]; eauto.
Qed.

Lemma writeFile_ok_inv (config : SandboxConfig) (filePath content : string)
    (w w' : world) :
  writeFile config filePath content w = (Ok tt, w') ->
  permitted config w (Path.join [workDir config; filePath]) = true
  /\ JS.toLowerCase (Path.extname filePath) ∈ allowedExtensions
  /\ exists t',
       Fs.writeFile (w_cwd w) (w_fs w) (Path.join [workDir config; filePath])
         content = (t', Ok tt)
       /\ w' = set_fs t' w.
Proof.
  rewrite writeFile_eq. cbv zeta.
  destruct (permitted config w _); [| discriminate].
  destruct (JS.array_includes _ _) eqn:Hext; [| discriminate].
  intros Hw. split; [done |]. split; [by apply array_includes_elem_of |].
  by apply fs_writeFile_ok_inv.
Qed.

(** X1. A file that was written through the sandbox reads back as it was
    written, through the sandbox and through the tool handler. *)
Theorem writeFile_readFile_round_trip :
  forall (config : SandboxConfig) (w w' : world) (filePath content : string),
    writeFile config filePath content w = (Ok tt, w') ->
    (readFile config filePath w').1 = Ok content
    /\ (handleRead config filePath w').1 = Ok content.
Proof.
  intros config w w' filePath content Hw.
  apply writeFile_ok_inv in Hw as (Hp & _ & t' & Hfs & ->).
  assert ((readFile config filePath (set_fs t' w)).1 = Ok content) as Hr.
  { rewrite readFile_eq. cbv zeta.
    rewrite (permitted_cwd config w (set_fs t' w) _ eq_refl), Hp.
    cbn [fst w_cwd w_fs set_fs]. by eapply Fs_writeFile_readFile. }
  split; [done |]. unfold handleRead, try_catch.
  by destruct (readFile config filePath (set_fs t' w)) as [[d | e] w2];
    simpl in *; simplify_eq.
Qed.

Lemma writeFile_readFile_round_trip_witness :
  (readFile Sample.config "notes/../report.json"
     (writeFile Sample.config "notes/../report.json" "{}" Sample.world0).2).1
    = Ok "{}".
Proof.
  refine (proj1 (writeFile_readFile_round_trip Sample.config Sample.world0
           (writeFile Sample.config "notes/../report.json" "{}" Sample.world0).2
           "notes/../report.json" "{}" _)).
  vm_compute. reflexivity.
Defined.

(** ** Absolute paths handed to [readFile] *)

Lemma chars_append (a b : string) : JS.chars (a +:+ b) = JS.chars a ++ JS.chars b.
Proof.
  induction a as [| x a IH]; [done |]. rewrite append_cons. cbn. by f_equal.
Qed.

Lemma ends_with_slash_append (a b : string) :
  b <> "" -> Path.ends_with_slash (a +:+ b) = Path.ends_with_slash b.
Proof.
  intros Hb. unfold Path.ends_with_slash. rewrite chars_append, last_app.
  destruct (last (JS.chars b)) eqn:Hl; [done |].
  apply last_None in Hl. by destruct b.
Qed.

Lemma isAbsolute_append (a b : string) :
  a <> "" -> Path.isAbsolute (a +:+ b) = Path.isAbsolute a.
Proof. by destruct a. Qed.

Lemma join_leading_slash (root p : string) :
  root <> "" -> p <> "" ->
  Path.join [root; "/" +:+ p] = Path.join [root; p].
Proof.
  intros Hr Hp. unfold Path.join.
  assert (filter (fun a : string => a <> "") [root; "/" +:+ p] = [root; "/" +:+ p])
    as -> by (rewrite !filter_cons_True; done).
  assert (filter (fun a : string => a <> "") [root; p] = [root; p])
    as -> by (rewrite !filter_cons_True; done).
  cbn [Path.join_segments]. unfold Path.normalize.
  assert (forall x, String.eqb (root +:+ x) "" = false) as Hne.
  { intros x. apply String.eqb_neq. by destruct root. }
  rewrite !Hne, !isAbsolute_append by done.
  assert (Path.ends_with_slash (root +:+ "/" +:+ "/" +:+ p)
          = Path.ends_with_slash (root +:+ "/" +:+ p)) as ->.
  { rewrite <- !append_assoc. by rewrite !ends_with_slash_append. }
  assert (forall b, Path.normalizeString (root +:+ "/" +:+ "/" +:+ p) b
                    = Path.normalizeString (root +:+ "/" +:+ p) b) as Hn.
  { intros b. unfold Path.normalizeString.
    rewrite !segments_append, !fold_left_app.
    change (Path.segments ("/" +:+ p)) with (Path.segments ("" +:+ "/" +:+ p)).
    by rewrite segments_append. }
  by rewrite !Hn.
Qed.

(** X2. [readFile] joins its argument to the root before it validates it, so
    a leading [/] does not make the path absolute: [/etc/passwd] names
    the file etc/passwd of the root, and reads exactly what the path
    without the leading [/] reads. *)
Theorem readFile_leading_slash :
  forall (config : SandboxConfig) (w : world) (p data : string),
    workDir config <> "" -> p <> "" ->
    Path.join [workDir config; "/" +:+ p] = Path.join [workDir config; p]
    /\ ((readFile config ("/" +:+ p) w).1 = Ok data
        <-> (readFile config p w).1 = Ok data).
Proof.
  intros config w p data Hr Hp.
  pose proof (join_leading_slash (workDir config) p Hr Hp) as Hj.
  split; [done |]. rewrite !readFile_eq. cbv zeta. rewrite Hj.
  by destruct (permitted config w _).
Qed.

Lemma readFile_leading_slash_witness :
  Path.join ["/tmp/s1"; "/etc/passwd"] = Path.join ["/tmp/s1"; "etc/passwd"]
  /\ ((readFile Sample.config "/hello.txt" Sample.world0).1 = Ok "Hello Hello"
      <-> (readFile Sample.config "hello.txt" Sample.world0).1 = Ok "Hello Hello").
Proof.
  split.
  - apply (proj1 (readFile_leading_slash Sample.config Sample.world0
                    "etc/passwd" "" ltac:(discriminate) ltac:(discriminate))).
  - apply (proj2 (readFile_leading_slash Sample.config Sample.world0
                    "hello.txt" "Hello Hello" ltac:(discriminate) ltac:(discriminate))).
Defined.

(** ** Copying files into the sandbox *)

Lemma copyFiles_cons (config : SandboxConfig) (source destination : string)
    (rest : list (string * string)) (w : world) :
  copyFiles config ((source, destination) :: rest) w =
    let destPath := Path.join [workDir config; destination] in
    if permitted config w destPath then
      match fs_mkdir_recursive (Path.dirname destPath) w with
      | (Err e, w1) => (Err e, w1)
      | (Ok _, w1) =>
          match fs_copyFile source destPath w1 with
          | (Err e, w2) => (Err e, w2)
          | (Ok _, w2) => copyFiles config rest w2
          end
      end
    else (Err (CopyDenied destination), w).
Proof.
  cbn [copyFiles]. unfold bind at 1. rewrite validatePath_eq. cbv zeta.
  destruct (permitted config w _); [| done]. cbn [negb]. unfold bind.
  destruct (fs_mkdir_recursive _ w) as [[[] | e] w1]; [| done].
  by destruct (fs_copyFile _ _ w1) as [[[] | e] w2].
Qed.

(** X3. [copyFiles] is not transactional: copying a list is copying its
    first part and then the rest, so when a destination is refused the
    copies made before it stay in place. *)
Theorem copyFiles_app :
  (forall (config : SandboxConfig) (l1 l2 : list (string * string)) (w : world),
      copyFiles config (l1 ++ l2) w =
        match copyFiles config l1 w with
        | (Ok _, w1) => copyFiles config l2 w1
        | (Err e, w1) => (Err e, w1)
        end)
  /\ (forall (config : SandboxConfig) (l1 rest : list (string * string))
             (source destination : string) (w w1 : world),
        copyFiles config l1 w = (Ok tt, w1) ->
        permitted config w1 (Path.join [workDir config; destination]) = false ->
        copyFiles config (l1 ++ (source, destination) :: rest) w
          = (Err (CopyDenied destination), w1)).
Proof.
  assert (forall (config : SandboxConfig) (l1 l2 : list (string * string)) (w : world),
      copyFiles config (l1 ++ l2) w =
        match copyFiles config l1 w with
        | (Ok _, w1) => copyFiles config l2 w1
        | (Err e, w1) => (Err e, w1)
        end) as Happ.
  { intros config l1 l2. induction l1 as [| [s d] l1 IH]; intros w; [done |].
    rewrite <- app_comm_cons, !copyFiles_cons. cbv zeta.
    destruct (permitted config w _); [| done].
    destruct (fs_mkdir_recursive _ w) as [[[] | e] w1]; [| done].
    destruct (fs_copyFile _ _ w1) as [[[] | e] w2]; [| done].
    apply IH. }
  split; [exact Happ |].
  intros config l1 rest s d w w1 H1 Hp.
  rewrite Happ, H1, copyFiles_cons. cbv zeta. by rewrite Hp.
Qed.

Lemma copyFiles_app_witness :
  copyFiles Sample.config
    ([("/home/form.pdf", "forms/form.pdf")]
       ++ [("/home/form.pdf", "../form.pdf")])
    Sample.world0
  = (Err (CopyDenied "../form.pdf"),
     (copyFiles Sample.config [("/home/form.pdf", "forms/form.pdf")]
        Sample.world0).2).
Proof.
  apply (proj2 copyFiles_app Sample.config
           [("/home/form.pdf", "forms/form.pdf")] []
           "/home/form.pdf" "../form.pdf" Sample.world0).
  - vm_compute. reflexivity.
  - vm_compute. reflexivity.
Defined.

Lemma walk_mk_subseteq (nofollow : bool) (t : gmap (list string) Fs.node)
    (cur todo : list string) :
  t ⊆ (Fs.walk true nofollow t cur todo).1.
Proof.
  revert t cur. induction todo as [| c rest IH]; intros t cur; [done |].
  cbn [Fs.walk]. destruct (_ || _); [apply IH |].
  destruct (String.eqb c ".."); [apply IH |].
  destruct (t !! (cur ++ [c])) as [[d | | target] |] eqn:Hl.
  - by destruct rest.
  - apply IH.
  - destruct rest; [by destruct nofollow | done].
  - etrans; [| apply IH]. by apply insert_subseteq.
Qed.

Lemma namei_mk_subseteq (fuel : nat) (nofollow : bool)
    (t : gmap (list string) Fs.node) (cur todo : list string) :
  t ⊆ (Fs.namei fuel true nofollow t cur todo).1.
Proof.
  revert t cur todo. induction fuel as [| fuel IH]; intros t cur todo;
    cbn [Fs.namei];
    pose proof (walk_mk_subseteq nofollow t cur todo) as Hw;
    destruct (Fs.walk true nofollow t cur todo) as [t1 [q | cur' todo' | code]];
    try done.
  etrans; [exact Hw | apply IH].
Qed.

(** A lookup that ends on an existing entry is not disturbed by new
    entries elsewhere. *)
Lemma walk_weaken (nofollow : bool) (t t' : gmap (list string) Fs.node)
    (cur todo : list string) :
  t ⊆ t' ->
  match (Fs.walk false nofollow t cur todo).2 with
  | Fs.Fail _ => True
  | Fs.Follow cur' todo' =>
      (Fs.walk false nofollow t' cur todo).2 = Fs.Follow cur' todo'
  | Fs.Found q =>
      (Fs.walk false nofollow t' cur todo).2 = Fs.Found q \/ t !! q = None
  end.
Proof.
  intros Hsub. revert cur. induction todo as [| c rest IH]; intros cur.
  - by left.
  - cbn [Fs.walk]. destruct (_ || _); [apply IH |].
    destruct (String.eqb c ".."); [apply IH |].
    destruct (t !! (cur ++ [c])) as [[d | | target] |] eqn:Hl.
    + rewrite (lookup_weaken _ _ _ _ Hl Hsub). destruct rest; [by left | done].
    + rewrite (lookup_weaken _ _ _ _ Hl Hsub). apply IH.
    + rewrite (lookup_weaken _ _ _ _ Hl Hsub).
      destruct rest; [destruct nofollow; [by left | done] | done].
    + destruct rest; [by right | done].
Qed.

Lemma namei_weaken (fuel : nat) (nofollow : bool)
    (t t' : gmap (list string) Fs.node) (cur todo p : list string) :
  t ⊆ t' ->
  (Fs.namei fuel false nofollow t cur todo).2 = Ok p ->
  is_Some (t !! p) ->
  (Fs.namei fuel false nofollow t' cur todo).2 = Ok p.
Proof.
  intros Hsub. revert cur todo. induction fuel as [| fuel IH]; intros cur todo;
    cbn [Fs.namei];
    pose proof (walk_weaken nofollow t t' cur todo Hsub) as Hw;
    pose proof (walk_tree nofollow t cur todo) as Ht;
    pose proof (walk_tree nofollow t' cur todo) as Ht';
    destruct (Fs.walk false nofollow t cur todo) as [t1 r1];
    destruct (Fs.walk false nofollow t' cur todo) as [t2 r2];
    simpl in *; subst; destruct r1 as [q | cur' todo' | code]; try done;
    try (intros [= ->] [x Hx]; destruct Hw as [-> | Hn]; [done | congruence]).
  rewrite Hw. apply IH.
Qed.

Lemma Fs_readFile_weaken (cwd : string) (t t' : gmap (list string) Fs.node)
    (path data : string) :
  t ⊆ t' -> Fs.readFile cwd t path = Ok data -> Fs.readFile cwd t' path = Ok data.
Proof.
  intros Hsub. unfold Fs.readFile, Fs.lookup.
  destruct (Fs.namei _ false false t _ _).2 as [[| c q] | e] eqn:Hl;
    try discriminate.
  destruct (t !! (c :: q)) as [[d | | target] |] eqn:Hq; try discriminate.
  intros [= ->].
  rewrite (namei_weaken _ _ t t' _ _ (c :: q) Hsub Hl) by by eexists.
  by rewrite (lookup_weaken _ _ _ _ Hq Hsub).
Qed.

(** X4. A file copied into the sandbox reads back, through the sandbox, as
    the source read when the copy was made. *)
Theorem copyFiles_readFile_round_trip :
  forall (config : SandboxConfig) (w w' : world) (source destination data : string),
    fs_readFile source w = (Ok data, w) ->
    copyFiles config [(source, destination)] w = (Ok tt, w') ->
    (readFile config destination w').1 = Ok data.
Proof.
  intros config w w' source destination data Hsrc.
  unfold fs_readFile in Hsrc. injection Hsrc as Hsrc.
  rewrite copyFiles_cons. cbv zeta.
  destruct (permitted config w _) eqn:Hp; [| discriminate].
  unfold fs_mkdir_recursive, fs_copyFile, fs_step, Fs.mkdir_recursive.
  pose proof (namei_mk_subseteq Fs.MAXSYMLINKS false (w_fs w) []
    (Fs.components (w_cwd w)
       (Path.dirname (Path.join [workDir config; destination])))) as Hsub.
  destruct (Fs.namei _ true _ _ _ _) as [t1 [q | e]]; [| discriminate].
  cbn [w_cwd w_fs set_fs fst] in *. unfold Fs.copyFile.
  rewrite (Fs_readFile_weaken _ _ _ _ _ Hsub Hsrc).
  destruct (Fs.writeFile _ t1 _ data) as [t2 [[] | e]] eqn:Hw; [| discriminate].
  cbn [copyFiles ret]. intros [= <-].
  rewrite readFile_eq. cbv zeta. cbn [w_cwd w_fs set_fs fst].
  rewrite (permitted_cwd config w (set_fs t2 (set_fs t1 w)) _ eq_refl), Hp.
  cbn [fst w_cwd w_fs set_fs]. by eapply Fs_writeFile_readFile.
Qed.

Lemma copyFiles_readFile_round_trip_witness :
  (readFile Sample.config "forms/form.pdf"
     (copyFiles Sample.config [("/home/form.pdf", "forms/form.pdf")]
        Sample.world0).2).1 = Ok "%PDF".
Proof.
  apply (copyFiles_readFile_round_trip Sample.config Sample.world0 _
           "/home/form.pdf" "forms/form.pdf" "%PDF").
  - vm_compute. reflexivity.
  - vm_compute. reflexivity.
Defined.

(** ** Tearing a session down *)

Lemma Fs_rm_tree (cwd : string) (t : gmap (list string) Fs.node) (path : string) :
  (Fs.rm_recursive cwd t path).1 =
    match (Fs.namei Fs.MAXSYMLINKS false true t [] (Fs.components cwd path)).2 with
    | Ok p => filter (fun kv => ¬ p `prefix_of` kv.1) t
    | Err _ => t
    end.
Proof.
  unfold Fs.rm_recursive.
  destruct (Fs.namei _ _ _ _ _ _).2 as [p | e]; [done |].
  repeat case_match; done.
Qed.

Lemma cleanup_eq (config : SandboxConfig) (w : world) :
  exists w',
    cleanup config w = (Ok tt, w')
    /\ processes w' = ∅
    /\ w_killed w' = list_to_set (map_to_list (processes w)).*2 ∪ w_killed w
    /\ w_fs w' = (Fs.rm_recursive (w_cwd w) (w_fs w) (workDir config)).1
    /\ w_calls w' = w_calls w /\ w_spawned w' = w_spawned w
    /\ w_ended w' = w_ended w /\ w_security w' = w_security w
    /\ w_applog w' = w_applog w /\ w_cwd w' = w_cwd w.
Proof.
  unfold cleanup, bind, modify, try_catch, fs_rm_recursive, fs_step, console_error,
    modify. cbn.
  destruct (Fs.rm_recursive _ _ _) as [t [[] | e]]; cbn; eexists; by repeat split.
Qed.

Lemma lookup_removed (p k : list string) (t : gmap (list string) Fs.node) :
  filter (fun kv : list string * Fs.node => ¬ p `prefix_of` kv.1) t !! k
    = if decide (p `prefix_of` k) then None else t !! k.
Proof.
  case_decide as Hp.
  - apply map_lookup_filter_None. right. intros x _ Hn. by apply Hn.
  - destruct (t !! k) as [x |] eqn:Hk.
    + by apply map_lookup_filter_Some.
    + apply map_lookup_filter_None. by left.
Qed.



(** Locating an entry after a removal either goes as before or finds
    that a directory on the way is missing. *)
Lemma walk_after_removal (p : list string) (t : gmap (list string) Fs.node)
    (cur todo : list string) :
  let t' := filter (fun kv : list string * Fs.node => ¬ p `prefix_of` kv.1) t in
  (Fs.walk false true t' cur todo).2 = (Fs.walk false true t cur todo).2
  \/ (Fs.walk false true t' cur todo).2 = Fs.Fail "ENOENT".
Proof.
  intros t'. revert cur. induction todo as [| c rest IH]; intros cur; [by left |].
  cbn [Fs.walk]. destruct (_ || _); [apply IH |].
  destruct (String.eqb c ".."); [apply IH |].
  pose proof (lookup_removed p (cur ++ [c]) t) as Hlk. fold t' in Hlk.
  rewrite !Hlk. clear Hlk. case_decide as Hp.
  - destruct rest as [| c' rest]; [| by right]. left.
    by destruct (t !! (cur ++ [c])) as [[d | | target] |].
  - destruct (t !! (cur ++ [c])) as [[d | | target] |]; [| apply IH | |].
    + left. by destruct rest.
    + left. by destruct rest.
    + left. by destruct rest.
Qed.

Lemma namei_after_removal (fuel : nat) (p : list string)
    (t : gmap (list string) Fs.node) (cur todo : list string) :
  let t' := filter (fun kv : list string * Fs.node => ¬ p `prefix_of` kv.1) t in
  (Fs.namei fuel false true t' cur todo).2 = (Fs.namei fuel false true t cur todo).2
  \/ (Fs.namei fuel false true t' cur todo).2 = Err (FsError "ENOENT").
Proof.
  intros t'. revert cur todo. induction fuel as [| fuel IH]; intros cur todo;
    cbn [Fs.namei];
    pose proof (walk_after_removal p t cur todo) as Hw; cbv zeta in Hw;
    fold t' in Hw;
    pose proof (walk_tree true t cur todo) as Ht;
    pose proof (walk_tree true t' cur todo) as Ht';
    destruct (Fs.walk false true t cur todo) as [t1 r1];
    destruct (Fs.walk false true t' cur todo) as [t2 r2];
    simpl in *; subst; (destruct Hw as [-> | ->]; [| by right]);
    destruct r1 as [q | cur' todo' | code]; try (by left).
  apply IH.
Qed.

Lemma filter_removed_twice (p : list string) (t : gmap (list string) Fs.node) :
  let P := fun kv : list string * Fs.node => ¬ p `prefix_of` kv.1 in
  filter P (filter P t) = filter P t.
Proof.
  intros P. apply map_eq. intros k. unfold P. rewrite !lookup_removed.
  by case_decide.
Qed.

Lemma Fs_rm_twice (cwd : string) (t : gmap (list string) Fs.node) (path : string) :
  (Fs.rm_recursive cwd (Fs.rm_recursive cwd t path).1 path).1
    = (Fs.rm_recursive cwd t path).1.
Proof.
  rewrite (Fs_rm_tree cwd t path).
  destruct (Fs.namei _ _ _ t _ _).2 as [p | e] eqn:Hn.
  - rewrite Fs_rm_tree.
    pose proof (namei_after_removal Fs.MAXSYMLINKS p t []
                  (Fs.components cwd path)) as Ha. cbv zeta in Ha.
    destruct Ha as [-> | ->]; [| done].
    rewrite Hn. apply filter_removed_twice.
  - by rewrite Fs_rm_tree, Hn.
Qed.

(** X6. A second [cleanup] changes nothing: the registry stays empty, no
    further child is killed, and the file system stays as the first one
    left it. *)
Theorem cleanup_twice :
  forall (config : SandboxConfig) (w : world),
  exists w1 w2,
    cleanup config w = (Ok tt, w1)
    /\ cleanup config w1 = (Ok tt, w2)
    /\ processes w2 = processes w1
    /\ w_killed w2 = w_killed w1
    /\ w_fs w2 = w_fs w1
    /\ w_calls w2 = w_calls w1
    /\ w_spawned w2 = w_spawned w1
    /\ w_security w2 = w_security w1.
Proof.
  intros config w.
  destruct (cleanup_eq config w)
    as (w1 & Hcl1 & Hp1 & Hk1 & Hfs1 & Hc1 & Hs1 & He1 & Hsec1 & Hlog1 & Hcwd1).
  destruct (cleanup_eq config w1)
    as (w2 & Hcl2 & Hp2 & Hk2 & Hfs2 & Hc2 & Hs2 & He2 & Hsec2 & Hlog2 & Hcwd2).
  exists w1, w2. repeat split; try done.
  - congruence.
  - rewrite Hk2, Hp1, map_to_list_empty. set_solver.
  - rewrite Hfs2, Hfs1, Hcwd1. apply Fs_rm_twice.
Qed.

(** ** What is spawned *)




(** ** A teardown while a command runs *)








(** ** The sandbox manager *)

Lemma JSMap_get_set {V} (m : list (string * V)) (k k' : string) (v : V) :
  JSMap.get (JSMap.set m k v) k' = if decide (k' = k) then Some v else JSMap.get m k'.
Proof.
  induction m as [| [k0 v0] m IH]; cbn [JSMap.set JSMap.get].
  - destruct (decide (k' = k)) as [-> | Hne]; [by rewrite String.eqb_refl |].
    destruct (String.eqb_spec k k'); [congruence | done].
  - destruct (String.eqb_spec k0 k) as [-> | Hk0]; cbn [JSMap.get].
    + destruct (String.eqb_spec k k') as [-> | Hkk'].
      * by rewrite decide_True.
      * by rewrite decide_False by congruence.
    + destruct (String.eqb_spec k0 k') as [-> | Hkk'].
      * by rewrite decide_False by congruence.
      * exact IH.
Qed.

Lemma JSMap_get_delete {V} (m : list (string * V)) (k k' : string) :
  JSMap.get (JSMap.delete m k) k' = if decide (k' = k) then None else JSMap.get m k'.
Proof.
  induction m as [| [k0 v0] m IH]; cbn [JSMap.delete JSMap.get].
  - by destruct (decide (k' = k)).
  - destruct (String.eqb_spec k0 k) as [-> | Hk0]; cbn [JSMap.get].
    + rewrite IH. destruct (decide (k' = k)) as [-> | Hne]; [done |].
      destruct (String.eqb_spec k k'); [congruence | done].
    + destruct (String.eqb_spec k0 k') as [-> | Hkk'].
      * by rewrite decide_False by congruence.
      * exact IH.
Qed.

Lemma JSMap_get_elem_of {V} (m : list (string * V)) (k : string) (v : V) :
  JSMap.get m k = Some v -> (k, v) ∈ m.
Proof.
  induction m as [| [k0 v0] m IH]; cbn [JSMap.get]; [done |].
  destruct (String.eqb_spec k0 k) as [-> | Hk0].
  - intros [= ->]. by left.
  - intros H. right. auto.
Qed.

Lemma sandbox_cleanup_eq (ref : nat) (m : manager) (sb : sandbox) :
  m_heap m !! ref = Some sb ->
  exists m',
    sandbox_cleanup ref m = (Ok tt, m')
    /\ m_sandboxes m' = m_sandboxes m
    /\ m_heap m' = <[ref := {| sb_config := sb_config sb; sb_processes := ∅ |}]>
                     (m_heap m)
    /\ w_killed (m_world m')
         = list_to_set (map_to_list (sb_processes sb)).*2 ∪ w_killed (m_world m)
    /\ w_fs (m_world m') ⊆ w_fs (m_world m)
    /\ processes (m_world m') = processes (m_world m)
    /\ w_calls (m_world m') = w_calls (m_world m)
    /\ w_spawned (m_world m') = w_spawned (m_world m)
    /\ w_security (m_world m') = w_security (m_world m).
Proof.
  intros Hsb. unfold sandbox_cleanup, invoke. rewrite Hsb.
  destruct (cleanup_eq (sb_config sb) (set_processes (sb_processes sb) (m_world m)))
    as (w' & Hcu & Hp & Hk & Hfs & Hcalls & Hsp & _ & Hsec & _).
  rewrite Hcu. eexists. split; [done |].
  cbn [m_world m_heap m_sandboxes set_processes w_killed w_fs processes w_calls
       w_spawned w_security].
  rewrite Hp, Hk, Hfs, Hcalls, Hsp, Hsec. repeat split; try done.
  rewrite Fs_rm_tree. cbn [set_processes w_fs w_cwd].
  match goal with
  | |- context [(Fs.namei ?a ?b ?c ?d ?e ?f).2] =>
      destruct (Fs.namei a b c d e f).2
  end; [apply map_filter_subseteq | done].
Qed.

Lemma sandbox_cleanup_dangling (ref : nat) (m : manager) :
  m_heap m !! ref = None -> sandbox_cleanup ref m = (Ok tt, m).
Proof. intros H. unfold sandbox_cleanup, invoke. by rewrite H. Qed.

Lemma registered_children (m : manager) (ref child : nat) (sb : sandbox) :
  m_heap m !! ref = Some sb ->
  child ∈ (list_to_set (map_to_list (sb_processes sb)).*2 : gset nat)
  <-> registered m ref child.
Proof.
  intros Hsb. rewrite elem_of_list_to_set, list_elem_of_fmap. split.
  - intros ([pid c] & -> & Hin). apply elem_of_map_to_list in Hin.
    by exists sb, pid.
  - intros (sb' & pid & Hsb' & Hpid). assert (sb' = sb) as -> by congruence.
    exists (pid, child). split; [done |]. by apply elem_of_map_to_list.
Qed.

Lemma not_registered_dangling (m : manager) (ref child : nat) :
  m_heap m !! ref = None -> ~ registered m ref child.
Proof. intros H (sb & pid & Hsb & _). congruence. Qed.

(** The teardown of one object, whatever the reference. *)
Lemma sandbox_cleanup_spec (ref : nat) (m : manager) :
  exists m',
    sandbox_cleanup ref m = (Ok tt, m')
    /\ m_sandboxes m' = m_sandboxes m
    /\ (forall r, m_heap m' !! r
                  = if decide (r = ref) then cleared <$> m_heap m !! r
                    else m_heap m !! r)
    /\ (forall child,
          child ∈ w_killed (m_world m')
          <-> child ∈ w_killed (m_world m) \/ registered m ref child)
    /\ w_fs (m_world m') ⊆ w_fs (m_world m).
Proof.
  destruct (m_heap m !! ref) as [sb |] eqn:Hsb.
  - destruct (sandbox_cleanup_eq ref m sb Hsb)
      as (m' & Hcu & Hs & Hh & Hk & Hfs & _).
    exists m'. split; [done |]. split; [done |]. split; [| split; [| done]].
    + intros r. rewrite Hh. destruct (decide (r = ref)) as [-> | Hne].
      * rewrite list_lookup_insert_eq by by eapply lookup_lt_Some.
        by rewrite Hsb.
      * by rewrite list_lookup_insert_ne.
    + intros child. rewrite Hk, elem_of_union, (registered_children m ref child sb Hsb).
      tauto.
  - rewrite sandbox_cleanup_dangling by done.
    exists m. split; [done |]. split; [done |]. split; [| split; [| done]].
    + intros r. destruct (decide (r = ref)) as [-> | Hne]; [by rewrite Hsb | done].
    + intros child. pose proof (not_registered_dangling m ref child Hsb). tauto.
Qed.

Lemma registered_cleared (m m' : manager) (ref r child : nat) :
  (forall r, m_heap m' !! r
             = if decide (r = ref) then cleared <$> m_heap m !! r
               else m_heap m !! r) ->
  registered m' r child <-> r <> ref /\ registered m r child.
Proof.
  intros Hh. unfold registered. rewrite Hh. split.
  - intros (sb & pid & Hsb & Hpid). destruct (decide (r = ref)) as [-> | Hne].
    + destruct (m_heap m !! ref) as [sb0 |]; [| done].
      injection Hsb as <-. cbn in Hpid. by rewrite lookup_empty in Hpid.
    + split; [done |]. by exists sb, pid.
  - intros (Hne & sb & pid & Hsb & Hpid). rewrite decide_False by done.
    by exists sb, pid.
Qed.

(** X9. [destroySandbox] on an id that names no sandbox does nothing at
    all.  On the id of a sandbox it never fails; afterwards the id names
    no sandbox while every other id names what it named, the children
    registered in the sandbox were killed (and no others), its registry is
    empty, no other object changed, the file system only lost entries,
    and destroying the same id again does nothing. *)
Theorem destroySandbox_spec :
  forall (sessionId : string) (m : manager),
    match getSandbox sessionId m with
    | None => destroySandbox sessionId m = (Ok tt, m)
    | Some sandbox =>
        exists m',
          destroySandbox sessionId m = (Ok tt, m')
          /\ getSandbox sessionId m' = None
          /\ (forall other, other <> sessionId ->
                getSandbox other m' = getSandbox other m)
          /\ (forall child,
                child ∈ w_killed (m_world m')
                <-> child ∈ w_killed (m_world m) \/ registered m sandbox child)
          /\ (forall child, ~ registered m' sandbox child)
          /\ (forall r, r <> sandbox -> m_heap m' !! r = m_heap m !! r)
          /\ w_fs (m_world m') ⊆ w_fs (m_world m)
          /\ destroySandbox sessionId m' = (Ok tt, m')
    end.
Proof.
  intros id m. unfold getSandbox, destroySandbox.
  destruct (JSMap.get (m_sandboxes m) id) as [ref |] eqn:Hget; [| done].
  destruct (sandbox_cleanup_spec ref m) as (m1 & Hcu & Hs & Hh & Hk & Hfs).
  rewrite Hcu. eexists. split; [done |]. cbn [m_world m_heap m_sandboxes].
  assert (JSMap.get (JSMap.delete (m_sandboxes m1) id) id = None) as Hgone.
  { by rewrite JSMap_get_delete, decide_True. }
  rewrite Hgone. repeat split; try done.
  - intros other Hne. by rewrite JSMap_get_delete, decide_False, Hs.
  - by apply Hk.
  - by apply Hk.
  - intros child Hreg.
    apply (registered_cleared m _ ref ref child) in Hreg as [Hne _]; [done |].
    exact Hh.
  - intros r Hne. by rewrite Hh, decide_False.
Qed.

Lemma cleanup_each_spec (entries : list (string * nat)) (m : manager) :
  exists m',
    cleanup_each entries m = (Ok tt, m')
    /\ m_sandboxes m' = m_sandboxes m
    /\ (forall r, m_heap m' !! r
                  = if decide (r ∈ entries.*2) then cleared <$> m_heap m !! r
                    else m_heap m !! r)
    /\ (forall child,
          child ∈ w_killed (m_world m')
          <-> child ∈ w_killed (m_world m)
              \/ exists sessionId sandbox,
                   (sessionId, sandbox) ∈ entries /\ registered m sandbox child)
    /\ w_fs (m_world m') ⊆ w_fs (m_world m).
Proof.
  revert m. induction entries as [| [id0 r0] rest IH]; intros m.
  - exists m. cbn [cleanup_each]. repeat split; try done.
    + by left.
    + intros [H | (id & r & Hin & _)]; [done | by apply elem_of_nil in Hin].
  - cbn [cleanup_each].
    destruct (sandbox_cleanup_spec r0 m) as (m1 & Hcu & Hs1 & Hh1 & Hk1 & Hfs1).
    rewrite Hcu.
    destruct (IH m1) as (m' & Hce & Hs & Hh & Hk & Hfs).
    exists m'. split; [done |]. split; [congruence |].
    split; [| split; [| by etrans]].
    + intros r. rewrite Hh, Hh1. cbn [fmap list_fmap snd].
      destruct (decide (r = r0)) as [-> | Hne].
      * rewrite (decide_True (P := r0 ∈ r0 :: rest.*2)) by by left.
        destruct (decide (r0 ∈ rest.*2)); [| done].
        by destruct (m_heap m !! r0).
      * destruct (decide (r ∈ rest.*2)) as [Hin | Hnin].
        -- rewrite decide_True; [done | by right].
        -- rewrite decide_False; [done |].
           intros [-> | Hin]%elem_of_cons; done.
    + intros child. rewrite Hk, Hk1. split.
      * intros [[Hkilled | Hreg] | (id & r & Hin & Hreg)].
        -- by left.
        -- right. exists id0, r0. split; [by left | done].
        -- right. apply (registered_cleared m m1 r0 r child Hh1) in Hreg as [_ Hreg].
           exists id, r. split; [by right | done].
      * intros [Hkilled | (id & r & Hin & Hreg)]; [by left; left |].
        destruct (decide (r = r0)) as [-> | Hne]; [by left; right |].
        right. exists id, r. split.
        -- apply elem_of_cons in Hin as [[= -> ->] | Hin]; done.
        -- apply (registered_cleared m m1 r0 r child Hh1). done.
Qed.

(** X10. [destroyAllSandboxes] never fails.  Afterwards no id names a
    sandbox; the children killed are those killed before and those
    registered in a sandbox of the map; the registries of these sandboxes
    are empty; the file system only lost entries; and an object that no
    id names is left as it is, so that its children keep running. *)
Theorem destroyAllSandboxes_spec :
  forall m : manager,
    exists m',
      destroyAllSandboxes m = (Ok tt, m')
      /\ (forall sessionId, getSandbox sessionId m' = None)
      /\ (forall child,
            child ∈ w_killed (m_world m')
            <-> child ∈ w_killed (m_world m)
                \/ exists sessionId sandbox,
                     (sessionId, sandbox) ∈ m_sandboxes m
                     /\ registered m sandbox child)
      /\ (forall sessionId sandbox child,
            (sessionId, sandbox) ∈ m_sandboxes m -> ~ registered m' sandbox child)
      /\ (forall r,
            (forall sessionId, (sessionId, r) ∉ m_sandboxes m) ->
            m_heap m' !! r = m_heap m !! r)
      /\ w_fs (m_world m') ⊆ w_fs (m_world m).
Proof.
  intros m. unfold destroyAllSandboxes.
  destruct (cleanup_each_spec (m_sandboxes m) m) as (m1 & Hce & Hs & Hh & Hk & Hfs).
  rewrite Hce. eexists. split; [done |]. cbn [m_world m_heap m_sandboxes].
  repeat split; try done.
  - by apply Hk.
  - by apply Hk.
  - intros id r child Hin (sb & pid & Hsb & Hpid).
    rewrite Hh, decide_True in Hsb.
    + destruct (m_heap m !! r); [| done]. injection Hsb as <-.
      cbn in Hpid. by rewrite lookup_empty in Hpid.
    + apply list_elem_of_fmap. by exists (id, r).
  - intros r Hnone. rewrite Hh, decide_False; [done |].
    intros ([id r'] & -> & Hin)%list_elem_of_fmap. by apply (Hnone id).
Qed.

(** ** Creating directories *)

Lemma tree_wf_insert (t : gmap (list string) Fs.node) (cur : list string)
    (c : string) :
  tree_wf t -> directory_at t cur -> t !! (cur ++ [c]) = None ->
  tree_wf (<[cur ++ [c] := Fs.Directory]> t).
Proof.
  intros Hwf Hcur Hnone k n Hk.
  assert (forall q, directory_at t q ->
                    directory_at (<[cur ++ [c] := Fs.Directory]> t) q) as Hmono.
  { intros q [-> | Hq]; [by left |]. right.
    rewrite lookup_insert_ne; [done | congruence]. }
  apply lookup_insert_Some in Hk as [[<- <-] | [Hne Hk]].
  - split; [by destruct cur |]. rewrite removelast_last. by apply Hmono.
  - destruct (Hwf k n Hk) as [Hk0 Hdir]. split; [done |]. by apply Hmono.
Qed.

Lemma directory_at_parent (t : gmap (list string) Fs.node) (cur : list string) :
  tree_wf t -> directory_at t cur -> directory_at t (removelast cur).
Proof.
  intros Hwf [-> | Hcur]; [by left |]. by destruct (Hwf cur _ Hcur).
Qed.

(** [mkdir] with [recursive] keeps the tree well formed and only stops
    in a directory. *)
Lemma walk_mk_directory (t : gmap (list string) Fs.node) (cur todo : list string) :
  tree_wf t -> directory_at t cur ->
  tree_wf (Fs.walk true false t cur todo).1
  /\ match (Fs.walk true false t cur todo).2 with
     | Fs.Found p => directory_at (Fs.walk true false t cur todo).1 p
     | Fs.Follow cur' _ => directory_at (Fs.walk true false t cur todo).1 cur'
     | Fs.Fail _ => True
     end.
Proof.
  revert t cur. induction todo as [| c rest IH]; intros t cur Hwf Hcur; [done |].
  cbn [Fs.walk]. destruct (_ || _); [by apply IH |].
  destruct (String.eqb c "..");
    [apply IH; [done | by apply directory_at_parent] |].
  destruct (t !! (cur ++ [c])) as [[d | | target] |] eqn:Hl.
  - by destruct rest.
  - apply IH; [done | by right].
  - destruct rest; cbn [fst snd]; (split; [done |]);
      destruct (Path.isAbsolute target); (by left) || done.
  - apply IH; [by apply tree_wf_insert |]. right. by rewrite lookup_insert_eq.
Qed.

Lemma namei_mk_directory (fuel : nat) (t t' : gmap (list string) Fs.node)
    (cur todo p : list string) :
  tree_wf t -> directory_at t cur ->
  Fs.namei fuel true false t cur todo = (t', Ok p) ->
  tree_wf t' /\ directory_at t' p.
Proof.
  revert t cur todo. induction fuel as [| fuel IH]; intros t cur todo Hwf Hcur;
    cbn [Fs.namei];
    pose proof (walk_mk_directory t cur todo Hwf Hcur) as [Hwf1 Hdir];
    destruct (Fs.walk true false t cur todo) as [t1 [q | cur' todo' | code]];
    cbn [fst snd] in *; try done.
  - by intros [= <- <-].
  - by intros [= <- <-].
  - by apply IH.
Qed.

(** What [mkdir] with [recursive] has walked through, a lookup finds. *)
Lemma walk_mk_again (t t0 : gmap (list string) Fs.node) (cur todo : list string) :
  (Fs.walk true false t cur todo).1 ⊆ t0 ->
  (forall code, (Fs.walk true false t cur todo).2 <> Fs.Fail code) ->
  (Fs.walk false false t0 cur todo).2 = (Fs.walk true false t cur todo).2.
Proof.
  revert t cur. induction todo as [| c rest IH]; intros t cur Hsub Hok; [done |].
  cbn [Fs.walk] in *. destruct (_ || _); [by apply IH |].
  destruct (String.eqb c ".."); [by apply IH |].
  assert (t ⊆ t0) as Ht.
  { etrans; [| exact Hsub].
    destruct (t !! (cur ++ [c])) as [[d | | target] |] eqn:Hl.
    - by destruct rest.
    - apply walk_mk_subseteq.
    - by destruct rest.
    - etrans; [| apply walk_mk_subseteq]. by apply insert_subseteq. }
  destruct (t !! (cur ++ [c])) as [[d | | target] |] eqn:Hl.
  - destruct rest; by destruct (Hok _ eq_refl).
  - rewrite (lookup_weaken _ _ _ _ Hl Ht). by apply IH.
  - rewrite (lookup_weaken _ _ _ _ Hl Ht). by destruct rest.
  - assert (t0 !! (cur ++ [c]) = Some Fs.Directory) as ->.
    { eapply lookup_weaken; [| exact Hsub].
      eapply lookup_weaken; [| apply walk_mk_subseteq]. by rewrite lookup_insert_eq. }
    by apply IH.
Qed.

Lemma namei_mk_again (fuel : nat) (t t' t0 : gmap (list string) Fs.node)
    (cur todo p : list string) :
  Fs.namei fuel true false t cur todo = (t', Ok p) ->
  t' ⊆ t0 ->
  (Fs.namei fuel false false t0 cur todo).2 = Ok p.
Proof.
  revert t cur todo. induction fuel as [| fuel IH]; intros t cur todo;
    cbn [Fs.namei];
    pose proof (walk_mk_again t t0 cur todo) as Hagain;
    pose proof (walk_tree false t0 cur todo) as Ht0;
    destruct (Fs.walk false false t0 cur todo) as [t2 r2];
    destruct (Fs.walk true false t cur todo) as [t1 [q | cur' todo' | code]] eqn:Hw;
    cbn [fst snd] in *; try done.
  - intros [= <- <-] Hsub. by rewrite Hagain.
  - intros [= <- <-] Hsub. by rewrite Hagain.
  - intros Hn Hsub. rewrite Hagain; [| | done].
    + subst t2. by eapply IH.
    + etrans; [| exact Hsub].
      pose proof (namei_mk_subseteq fuel false t1 cur' todo') as Hs.
      by rewrite Hn in Hs.
Qed.

Lemma fs_mkdir_recursive_eq (path : string) (w : world) :
  fs_mkdir_recursive path w =
    match Fs.namei Fs.MAXSYMLINKS true false (w_fs w) []
            (Fs.components (w_cwd w) path) with
    | (t', Ok _) => (Ok tt, set_fs t' w)
    | (t', Err e) => (Err e, set_fs t' w)
    end.
Proof.
  unfold fs_mkdir_recursive, fs_step, Fs.mkdir_recursive.
  by destruct (Fs.namei _ _ _ _ _ _) as [t' [p | e]].
Qed.

(** X11. [createSandbox] either fails with the error of [mkdir], and then
    the manager knows the same sandboxes as before, or returns a new
    object that [getSandbox] finds under the session id from then on:
    its working directory is [cosmifill_<id>] joined to the temporary
    directory, it is the only allowed path, the time limit is 30000 ms and
    no process is registered.  The working directory exists afterwards.
    Nothing else is touched: the other ids name what they named, the
    objects made before are as they were (also one that the id named
    before, which is not torn down), no child is killed and no entry of
    the file system is removed or changed. *)
Theorem createSandbox_spec :
  forall (tmpdir sessionId : string) (m : manager),
    tree_wf (w_fs (m_world m)) ->
    let workDir := Path.join [tmpdir; "cosmifill_" +:+ sessionId] in
    match createSandbox tmpdir sessionId m with
    | (Ok sandbox, m') =>
        getSandbox sessionId m' = Some sandbox
        /\ m_heap m !! sandbox = None
        /\ m_heap m' !! sandbox
           = Some {| sb_config := {| sessionId := sessionId; workDir := workDir;
                                     allowedPaths := [workDir]; timeout := 30000 |};
                     sb_processes := ∅ |}
        /\ (forall r sb, m_heap m !! r = Some sb -> m_heap m' !! r = Some sb)
        /\ (forall other, other <> sessionId ->
              getSandbox other m' = getSandbox other m)
        /\ w_killed (m_world m') = w_killed (m_world m)
        /\ w_fs (m_world m) ⊆ w_fs (m_world m')
        /\ exists p,
             real_location (m_world m') workDir = Ok p
             /\ directory_at (w_fs (m_world m')) p
    | (Err e, m') =>
        (exists code, e = FsError code)
        /\ m_heap m' = m_heap m
        /\ m_sandboxes m' = m_sandboxes m
        /\ w_fs (m_world m) ⊆ w_fs (m_world m')
    end.
Proof.
  intros tmpdir id m Hwf workDir. unfold createSandbox. fold workDir.
  rewrite fs_mkdir_recursive_eq.
  pose proof (namei_mk_subseteq Fs.MAXSYMLINKS false (w_fs (m_world m)) []
                (Fs.components (w_cwd (m_world m)) workDir)) as Hsub.
  pose proof (namei_error Fs.MAXSYMLINKS true false (w_fs (m_world m)) []
                (Fs.components (w_cwd (m_world m)) workDir)) as Herr.
  destruct (Fs.namei Fs.MAXSYMLINKS true false (w_fs (m_world m)) []
              (Fs.components (w_cwd (m_world m)) workDir)) as [t' [p | e]] eqn:Hn;
    cbn [fst snd] in *.
  - unfold getSandbox. cbn [m_world m_heap m_sandboxes set_fs w_fs w_killed].
    rewrite JSMap_get_set, decide_True by done.
    split; [done |]. split; [by apply lookup_ge_None_2 |].
    split; [by rewrite lookup_app_r, Nat.sub_diag by done |].
    split; [intros r sb Hr; by apply lookup_app_l_Some |].
    split; [intros other Hne; by rewrite JSMap_get_set, decide_False |].
    split; [done |]. split; [done |].
    exists p. unfold real_location, Fs.lookup. cbn [set_fs w_fs w_cwd].
    split.
    + by eapply namei_mk_again.
    + by eapply namei_mk_directory; [| left |].
  - cbn [m_world m_heap m_sandboxes set_fs w_fs]. by destruct (Herr e eq_refl); eauto.
Qed.

Lemma createSandbox_spec_witness :
  match createSandbox "/tmp" "s9" (new_manager Sample.world0) with
  | (Ok sandbox, m') =>
      getSandbox "s9" m' = Some sandbox
      /\ m_heap (new_manager Sample.world0) !! sandbox = None
      /\ m_heap m' !! sandbox
         = Some {| sb_config := {| sessionId := "s9";
                                   workDir := Path.join ["/tmp"; "cosmifill_s9"];
                                   allowedPaths := [Path.join ["/tmp"; "cosmifill_s9"]];
                                   timeout := 30000 |};
                   sb_processes := ∅ |}
      /\ (forall r sb, m_heap (new_manager Sample.world0) !! r = Some sb ->
                       m_heap m' !! r = Some sb)
      /\ (forall other, other <> "s9" ->
            getSandbox other m' = getSandbox other (new_manager Sample.world0))
      /\ w_killed (m_world m') = w_killed Sample.world0
      /\ Sample.tree ⊆ w_fs (m_world m')
      /\ exists p,
           real_location (m_world m') (Path.join ["/tmp"; "cosmifill_s9"]) = Ok p
           /\ directory_at (w_fs (m_world m')) p
  | (Err e, m') =>
      (exists code, e = FsError code)
      /\ m_heap m' = []
      /\ m_sandboxes m' = []
      /\ Sample.tree ⊆ w_fs (m_world m')
  end.
Proof.
  apply (createSandbox_spec "/tmp" "s9" (new_manager Sample.world0)).
  intros k n Hk. apply elem_of_list_to_map_2 in Hk.
  repeat (apply elem_of_cons in Hk as [[= -> ->] | Hk]);
    try (by apply elem_of_nil in Hk);
    (split; [done |]); (by left) || (by right).
Defined.

Lemma JSMap_set_elem_of {V} (m : list (string * V)) (k k' : string) (v v' : V) :
  NoDup m.*1 ->
  (k', v') ∈ JSMap.set m k v ->
  (k' = k /\ v' = v) \/ (k' <> k /\ (k', v') ∈ m).
Proof.
  induction m as [| [k0 v0] m IH]; cbn [JSMap.set fmap list_fmap fst].
  - intros _ [= -> ->]%list_elem_of_singleton. by left.
  - intros [Hk0 Hnd]%NoDup_cons.
    destruct (String.eqb_spec k0 k) as [-> | Hne].
    + intros [[= -> ->] | Hin]%elem_of_cons; [by left |].
      right. split; [| by right]. intros ->. apply Hk0.
      apply list_elem_of_fmap. by exists (k, v').
    + intros [[= -> ->] | Hin]%elem_of_cons; [right; split; [done | by left] |].
      destruct (IH Hnd Hin) as [? | [? ?]]; [by left |].
      right. split; [done | by right].
Qed.

(** X12. Creating a sandbox for an id that already names one replaces
    it without tearing it down: the old object is no longer reachable
    through the manager, and a child that runs in it (and in no sandbox
    of another id) survives: even [destroyAllSandboxes] does not kill it
    and leaves it registered in the old object. *)
Theorem createSandbox_replaces :
  forall (tmpdir sessionId : string) (m m1 : manager) (old new child : nat),
    NoDup (m_sandboxes m).*1 ->
    getSandbox sessionId m = Some old ->
    createSandbox tmpdir sessionId m = (Ok new, m1) ->
    registered m old child ->
    child ∉ w_killed (m_world m) ->
    (forall other sandbox,
        (other, sandbox) ∈ m_sandboxes m -> registered m sandbox child ->
        other = sessionId) ->
    getSandbox sessionId m1 = Some new
    /\ new <> old
    /\ exists m2,
         destroyAllSandboxes m1 = (Ok tt, m2)
         /\ (child ∉ w_killed (m_world m2))
         /\ registered m2 old child.
Proof.
  intros tmpdir id m m1 old new child Hnd Hold Hcreate Hreg Halive Honly.
  unfold createSandbox in Hcreate.
  destruct (fs_mkdir_recursive _ (m_world m)) as [[[] | e] w'] eqn:Hmk;
    [| discriminate].
  injection Hcreate as <- <-.
  assert (w_killed w' = w_killed (m_world m)) as Hkilled.
  { rewrite fs_mkdir_recursive_eq in Hmk.
    destruct (Fs.namei _ _ _ _ _ _) as [t' [p | e]]; by simplify_eq. }
  destruct Hreg as (sb & pid & Hsb & Hpid).
  pose proof (lookup_lt_Some _ _ _ Hsb) as Hlt.
  unfold getSandbox. cbn [m_sandboxes].
  rewrite JSMap_get_set, decide_True by done.
  split; [done |]. split; [lia |].
  set (m1 := {| m_world := w'; m_heap := _; m_sandboxes := _ |}).
  assert (forall r, registered m1 r child -> registered m r child) as Hback.
  { intros r (sb' & pid' & Hsb' & Hpid'). cbn [m1 m_heap] in Hsb'.
    apply lookup_app_Some in Hsb' as [Hsb' | [_ Hsb']]; [by exists sb', pid' |].
    apply list_lookup_singleton_Some in Hsb' as [_ <-].
    cbn in Hpid'. by rewrite lookup_empty in Hpid'. }
  assert (forall other r,
             (other, r) ∈ m_sandboxes m1 -> ~ registered m1 r child) as Hnone.
  { intros other r Hin Hr. cbn [m1 m_sandboxes] in Hin.
    apply JSMap_set_elem_of in Hin as [[-> ->] | [Hne Hin]]; [| | done].
    - destruct Hr as (sb' & pid' & Hsb' & Hpid'). cbn [m1 m_heap] in Hsb'.
      rewrite lookup_app_r, Nat.sub_diag in Hsb' by done.
      injection Hsb' as <-. cbn in Hpid'. by rewrite lookup_empty in Hpid'.
    - apply Hne, (Honly other r Hin). by apply Hback. }
  unfold destroyAllSandboxes.
  destruct (cleanup_each_spec (m_sandboxes m1) m1) as (m2 & Hce & _ & Hh & Hk & _).
  rewrite Hce. eexists. split; [done |]. cbn [m_world m_heap m_sandboxes].
  split.
  - rewrite Hk. intros [Hin | (other & r & Hin & Hr)].
    + cbn [m1 m_world] in Hin. by rewrite Hkilled in Hin.
    + by apply (Hnone other r).
  - exists sb, pid. split; [| done]. cbn [m_heap]. rewrite Hh, decide_False.
    + cbn [m1 m_heap]. by apply lookup_app_l_Some.
    + intros ([other r] & -> & Hin)%list_elem_of_fmap. cbn [snd] in *.
      apply (Hnone other r Hin). exists sb, pid. split; [| done].
      cbn [m1 m_heap]. by apply lookup_app_l_Some.
Qed.

Lemma createSandbox_replaces_witness :
  getSandbox "s1" (createSandbox "/tmp" "s1" Sample.manager0).2 = Some 1%nat
  /\ 1%nat <> 0%nat
  /\ exists m2,
       destroyAllSandboxes (createSandbox "/tmp" "s1" Sample.manager0).2 = (Ok tt, m2)
       /\ (0%nat ∉ w_killed (m_world m2))
       /\ registered m2 0 0.
Proof.
  apply (createSandbox_replaces "/tmp" "s1" Sample.manager0
           (createSandbox "/tmp" "s1" Sample.manager0).2 0 1 0).
  - apply NoDup_singleton.
  - reflexivity.
  - reflexivity.
  - eexists _, "1-0.5". split; reflexivity.
  - apply not_elem_of_empty.
  - intros other r Hin _. apply list_elem_of_singleton in Hin. by injection Hin.
Defined.

(** ** The working directory of a session *)

Lemma slash_free_segments (s : string) :
  slash_free s = true -> Path.segments s = [s].
Proof.
  induction s as [| c s IH]; [done |].
  cbn [slash_free Path.segments]. intros [Hc Hs]%andb_true_iff.
  apply negb_true_iff in Hc. by rewrite Hc, IH.
Qed.

Lemma segments_slash_free (s : string) :
  Forall (fun seg => slash_free seg = true) (Path.segments s).
Proof.
  induction s as [| c s IH]; [by repeat constructor |].
  cbn [Path.segments]. destruct (Path.is_slash c) eqn:Hc.
  - by constructor.
  - pose proof (segments_nonempty s) as Hne.
    destruct (Path.segments s) as [| seg segs]; [done |].
    apply Forall_cons in IH as [Hseg Hsegs].
    constructor; [| done]. cbn [slash_free]. by rewrite Hc, Hseg.
Qed.

Lemma slash_free_append (a b : string) :
  slash_free (a +:+ b) = slash_free a && slash_free b.
Proof.
  induction a as [| c a IH]; [done |].
  simpl_append. cbn [slash_free]. by rewrite IH, andb_assoc.
Qed.

Lemma segments_join_segments (l : list string) :
  l <> [] -> Forall (fun seg => slash_free seg = true) l ->
  Path.segments (Path.join_segments l) = l.
Proof.
  induction l as [| x [| y l] IH]; [done | |]; intros _ Hall.
  - apply slash_free_segments. by apply Forall_cons in Hall as [].
  - apply Forall_cons in Hall as [Hx Hall].
    change (Path.join_segments (x :: y :: l))
      with (x +:+ "/" +:+ Path.join_segments (y :: l)).
    rewrite segments_append, slash_free_segments, IH by done. done.
Qed.

(** The segments that normalization keeps are plain. *)
Lemma normalize_step_kept (res : list string) (seg : string) :
  Forall (fun s => plain_segment s = true /\ slash_free s = true) res ->
  slash_free seg = true ->
  Forall (fun s => plain_segment s = true /\ slash_free s = true)
         (Path.normalize_step false res seg).
Proof.
  intros Hres Hseg. unfold Path.normalize_step.
  destruct (String.eqb seg "") eqn:H1; [done |].
  destruct (String.eqb seg ".") eqn:H2; [done |]. cbn [orb].
  destruct (String.eqb seg "..") eqn:H3.
  - destruct (last res) as [l |]; [| done].
    destruct (String.eqb l ".."); [done |].
    induction res as [| x [| y res] IH]; [done | by constructor |].
    apply Forall_cons in Hres as [Hx Hres]. constructor; [done |]. by apply IH.
  - apply Forall_app. split; [done |]. repeat constructor; [| done].
    unfold plain_segment. by rewrite H1, H2, H3.
Qed.

Lemma normalize_fold_kept (l res : list string) :
  Forall (fun s => plain_segment s = true /\ slash_free s = true) res ->
  Forall (fun seg => slash_free seg = true) l ->
  Forall (fun s => plain_segment s = true /\ slash_free s = true)
         (fold_left (Path.normalize_step false) l res).
Proof.
  revert res. induction l as [| seg l IH]; intros res Hres Hl; [done |].
  apply Forall_cons in Hl as [Hseg Hl]. cbn [fold_left].
  apply IH; [by apply normalize_step_kept | done].
Qed.

Lemma join_segments_snoc (l : list string) (c : string) :
  l <> [] ->
  Path.join_segments (l ++ [c]) = Path.join_segments l +:+ "/" +:+ c.
Proof.
  induction l as [| x [| y l] IH]; [done | done |]. intros _.
  change (x +:+ "/" +:+ Path.join_segments ((y :: l) ++ [c])
          = (x +:+ "/" +:+ Path.join_segments (y :: l)) +:+ "/" +:+ c).
  rewrite IH by done. by rewrite !append_assoc.
Qed.

Lemma append_inj_l (a b c : string) : a +:+ b = a +:+ c -> b = c.
Proof.
  induction a as [| x a IH]; [done |]. simpl_append. intros [= H]. auto.
Qed.

Lemma join_segments_snoc_inj (l : list string) (c1 c2 : string) :
  Path.join_segments (l ++ [c1]) = Path.join_segments (l ++ [c2]) -> c1 = c2.
Proof.
  destruct l as [| x l]; [done |].
  rewrite !join_segments_snoc by done. rewrite <- !append_assoc.
  by intros H%append_inj_l.
Qed.

Lemma session_directory_plain (sessionId : string) :
  slash_free sessionId = true ->
  slash_free ("cosmifill_" +:+ sessionId) = true
  /\ plain_segment ("cosmifill_" +:+ sessionId) = true.
Proof. intros H. by rewrite slash_free_append, H. Qed.

(** The working directory of a session whose id holds no [/], below an
    absolute temporary directory. *)
Lemma join_session_directory (tmpdir sessionId : string) :
  Path.isAbsolute tmpdir = true ->
  slash_free sessionId = true ->
  Path.join [tmpdir; "cosmifill_" +:+ sessionId] =
    "/" +:+ Path.join_segments
              (fold_left (Path.normalize_step false) (Path.segments tmpdir) []
               ++ ["cosmifill_" +:+ sessionId]).
Proof.
  intros Habs Hid. destruct (session_directory_plain sessionId Hid) as [Hsf Hplain].
  set (c := "cosmifill_" +:+ sessionId) in *.
  assert (tmpdir <> "") as Htmp by by destruct tmpdir.
  assert (c <> "") as Hc by done.
  unfold Path.join. rewrite !filter_cons_True by done. rewrite filter_nil.
  cbn [Path.join_segments]. unfold Path.normalize.
  assert (String.eqb (tmpdir +:+ "/" +:+ c) "" = false) as ->.
  { apply String.eqb_neq. by destruct tmpdir. }
  rewrite isAbsolute_append, Habs by done. cbn [negb].
  unfold Path.normalizeString.
  rewrite segments_append, fold_left_app, (slash_free_segments c) by done.
  cbn [fold_left]. unfold Path.normalize_step at 1.
  unfold plain_segment in Hplain.
  apply andb_true_iff in Hplain as [[H1 H2]%andb_true_iff H3].
  apply negb_true_iff in H1, H2, H3. rewrite H1, H2, H3. cbn [orb].
  set (N := fold_left (Path.normalize_step false) (Path.segments tmpdir) []).
  assert (String.eqb (Path.join_segments (N ++ [c])) "" = false) as ->.
  { apply String.eqb_neq. destruct N as [| x N]; [done |].
    rewrite join_segments_snoc by done. intros H.
    destruct (Path.join_segments (x :: N)); discriminate. }
  assert (Path.ends_with_slash (tmpdir +:+ "/" +:+ c) = false) as ->; [| done].
  rewrite <- append_assoc, ends_with_slash_append by done.
  unfold Path.ends_with_slash.
  assert (forall s, slash_free s = true ->
                    match last (JS.chars s) with
                    | Some ch => Path.is_slash ch
                    | None => false
                    end = false) as Hlast; [| by apply Hlast].
  clear. induction s as [| ch s IH]; [done |].
  cbn [slash_free]. intros [Hch Hs]%andb_true_iff. apply negb_true_iff in Hch.
  change (JS.chars (String ch s)) with (ch :: JS.chars s).
  destruct (JS.chars s) as [| ch' l] eqn:Hl; [done |].
  rewrite last_cons_cons. by apply IH.
Qed.

Lemma kept_forallb_plain (l : list string) :
  Forall (fun s => plain_segment s = true /\ slash_free s = true) l ->
  forallb plain_segment l = true.
Proof.
  induction 1 as [| x l [Hx _] _ IH]; [done |]. cbn [forallb]. by rewrite Hx, IH.
Qed.

(** X13. The sandbox that [createSandbox] makes for an id without [/],
    below an absolute temporary directory, has an absolute, normalized
    working directory; every relative path made of plain segments is
    permitted in it; and no other id without [/] gets the same working
    directory. *)
Theorem createSandbox_workDir :
  forall (tmpdir sessionId : string) (m m' : manager) (sandbox : nat),
    Path.isAbsolute tmpdir = true ->
    slash_free sessionId = true ->
    createSandbox tmpdir sessionId m = (Ok sandbox, m') ->
    exists config,
      sb_config <$> m_heap m' !! sandbox = Some config
      /\ workDir config = Path.join [tmpdir; "cosmifill_" +:+ sessionId]
      /\ Path.isAbsolute (workDir config) = true
      /\ (forall cwd, Path.resolve cwd [workDir config] = workDir config)
      /\ (forall (w : world) (requestedPath : string),
            forallb plain_segment (Path.segments requestedPath) = true ->
            validatePath config requestedPath w = (Ok true, w))
      /\ (forall other,
            slash_free other = true ->
            Path.join [tmpdir; "cosmifill_" +:+ other] = workDir config ->
            other = sessionId).
Proof.
  intros tmpdir id m m' sandbox Habs Hid Hcreate.
  unfold createSandbox in Hcreate.
  destruct (fs_mkdir_recursive _ (m_world m)) as [[[] | e] w'] eqn:Hmk;
    [| discriminate].
  injection Hcreate as <- <-. cbn [m_heap].
  rewrite lookup_app_r, Nat.sub_diag by done. eexists. split; [done |].
  cbn [sb_config workDir allowedPaths]. split; [done |].
  destruct (session_directory_plain id Hid) as [Hsf Hplain].
  pose proof (join_session_directory tmpdir id Habs Hid) as Hwd.
  set (c := "cosmifill_" +:+ id) in *.
  set (N := fold_left (Path.normalize_step false) (Path.segments tmpdir) []) in *.
  set (wd := Path.join [tmpdir; c]) in *.
  assert (Forall (fun s => plain_segment s = true /\ slash_free s = true) (N ++ [c]))
    as Hkept.
  { apply Forall_app. split; [| by repeat constructor].
    apply normalize_fold_kept; [done | apply segments_slash_free]. }
  assert (Path.isAbsolute wd = true) as Hwabs by by rewrite Hwd.
  assert (fold_left (Path.normalize_step false) (Path.segments wd) [] = N ++ [c])
    as Hnorm.
  { rewrite Hwd.
    change ("/" +:+ Path.join_segments (N ++ [c]))
      with ("" +:+ "/" +:+ Path.join_segments (N ++ [c])).
    rewrite segments_append, segments_join_segments.
    - cbn [Path.segments app fold_left].
      change (Path.normalize_step false [] "") with (@nil string).
      by rewrite normalize_step_plain by by apply kept_forallb_plain.
    - by destruct N.
    - eapply Forall_impl; [exact Hkept |]. by intros s [_ Hs]. }
  split; [done |]. split; [| split].
  - intros cwd. rewrite resolve_root by done. by rewrite Hnorm, Hwd.
  - intros w p Hp. rewrite validatePath_eq. f_equal. f_equal.
    unfold permitted. cbn [sb_config workDir allowedPaths existsb].
    rewrite orb_false_r.
    rewrite resolve_plain by done. rewrite Hnorm.
    unfold JS.startsWith. apply prefix_spec.
    destruct (join_segments_prefix (N ++ [c]) (Path.segments p)) as [rest Hrest].
    exists rest. rewrite Hrest, Hwd. by rewrite append_assoc.
  - intros other Hother Heq.
    rewrite (join_session_directory tmpdir other Habs Hother) in Heq.
    fold N in Heq. rewrite Hwd in Heq.
    apply append_inj_l, join_segments_snoc_inj in Heq.
    by apply append_inj_l in Heq.
Qed.

Lemma createSandbox_workDir_witness :
  exists config,
    sb_config <$> m_heap (createSandbox "/tmp" "s9" (new_manager Sample.world0)).2
                    !! 0%nat = Some config
    /\ workDir config = Path.join ["/tmp"; "cosmifill_" +:+ "s9"]
    /\ Path.isAbsolute (workDir config) = true
    /\ (forall cwd, Path.resolve cwd [workDir config] = workDir config)
    /\ (forall (w : world) (requestedPath : string),
          forallb plain_segment (Path.segments requestedPath) = true ->
          validatePath config requestedPath w = (Ok true, w))
    /\ (forall other,
          slash_free other = true ->
          Path.join ["/tmp"; "cosmifill_" +:+ other] = workDir config ->
          other = "s9").
Proof.
  apply (createSandbox_workDir "/tmp" "s9" (new_manager Sample.world0)
           (createSandbox "/tmp" "s9" (new_manager Sample.world0)).2 0).
  - reflexivity.
  - reflexivity.
  - reflexivity.
Defined.

(** An id with [/] can name a working directory anywhere, and two such
    ids can name the same one. *)
Example createSandbox_workDir_slashes :
  Path.join ["/tmp"; "cosmifill_" +:+ "x/../../etc"] = "/etc"
  /\ Path.join ["/tmp"; "cosmifill_" +:+ "a/b/.."] = Path.join ["/tmp"; "cosmifill_" +:+ "a"].
Proof. split; reflexivity. Qed.

(** ** How far the prefix test lets a path go *)

Lemma segments_glue (a b : string) :
  Path.segments (a +:+ b) = glue (Path.segments a) (Path.segments b).
Proof.
  induction a as [| ch a IH].
  - rewrite append_nil_l. cbn [Path.segments glue].
    pose proof (segments_nonempty b). by destruct (Path.segments b).
  - simpl_append. cbn [Path.segments]. rewrite IH.
    pose proof (segments_nonempty a) as Ha.
    destruct (Path.is_slash ch).
    + by destruct (Path.segments a).
    + destruct (Path.segments a) as [| seg [| y segs]]; [done | |].
      * cbn [glue]. pose proof (segments_nonempty b).
        by destruct (Path.segments b).
      * done.
Qed.

Lemma glue_snoc (l : list string) (x hd : string) (tl : list string) :
  glue (l ++ [x]) (hd :: tl) = l ++ (x +:+ hd) :: tl.
Proof.
  induction l as [| y l IH]; [done |].
  cbn [app glue]. rewrite IH. by destruct l.
Qed.

Lemma filter_kept (l : list string) :
  Forall (fun s => plain_segment s = true /\ slash_free s = true) l ->
  filter (fun s : string => s <> "") l = l.
Proof.
  induction 1 as [| x l [Hx _] _ IH]; [done |].
  rewrite filter_cons_True, IH; [done |]. by intros ->.
Qed.

(** X14. What the prefix test of [validatePath] cannot let through.  In
    a session whose root is absolute and normalized and is the only
    allowed path, a permitted path always resolves, lexically, to a place
    below the parent directory of the root, through an entry of that
    directory whose name begins with the name of the root: the root
    itself or a sibling such as root-old, never another directory. *)
Theorem validatePath_confined :
  forall (config : SandboxConfig) (w : world) (requestedPath : string),
    Path.isAbsolute (workDir config) = true ->
    Path.resolve (w_cwd w) [workDir config] = workDir config ->
    allowedPaths config = [workDir config] ->
    validatePath config requestedPath w = (Ok true, w) ->
    let resolved := Path.resolve (w_cwd w) [workDir config; requestedPath] in
    let root := path_components (workDir config) in
    removelast root `prefix_of` path_components resolved
    /\ forall c, last root = Some c ->
         exists name,
           path_components resolved !! (length root - 1)%nat = Some name
           /\ JS.startsWith name c = true.
Proof.
  intros config w p Habs Hnorm Hallowed Hok resolved root.
  rewrite validatePath_eq in Hok. injection Hok as Hok.
  unfold permitted in Hok. rewrite Hallowed in Hok. cbn [existsb] in Hok.
  rewrite orb_false_r in Hok. fold resolved in Hok.
  apply prefix_spec in Hok as [rest Hrest].
  rewrite resolve_root in Hnorm by done.
  set (K := fold_left (Path.normalize_step false)
              (Path.segments (workDir config)) []) in *.
  assert (Forall (fun s => plain_segment s = true /\ slash_free s = true) K)
    as Hkept by (apply normalize_fold_kept; [done | apply segments_slash_free]).
  destruct (decide (K = [])) as [HK | HK].
  - (* the root is / *)
    assert (root = []) as ->.
    { unfold root. rewrite <- Hnorm, HK. reflexivity. }
    split; [apply prefix_nil | done].
  - assert (Path.segments (workDir config) = "" :: K) as Hsegs.
    { rewrite <- Hnorm at 1.
      change ("/" +:+ Path.join_segments K) with ("" +:+ "/" +:+ Path.join_segments K).
      rewrite segments_append, segments_join_segments; [done | done |].
      eapply Forall_impl; [exact Hkept |]. by intros s [_ Hs]. }
    assert (root = K) as Hroot.
    { unfold root, path_components. rewrite Hsegs, filter_cons_False by naive_solver.
      by apply filter_kept. }
    destruct (exists_last HK) as (parent & c & HKc).
    pose proof (segments_nonempty rest) as Hne.
    destruct (Path.segments rest) as [| hd tl] eqn:Hrs; [done |].
    assert (path_components resolved
            = parent ++ (c +:+ hd) :: filter (fun s : string => s <> "") tl) as Hres.
    { unfold path_components. rewrite Hrest, segments_glue, Hsegs, Hrs, HKc.
      change ("" :: parent ++ [c]) with (("" :: parent) ++ [c]).
      rewrite glue_snoc. cbn [app]. rewrite filter_cons_False by naive_solver.
      rewrite filter_app, filter_cons_True.
      - rewrite filter_kept; [done |].
        rewrite HKc in Hkept. by apply Forall_app in Hkept as [].
      - rewrite HKc in Hkept. apply Forall_app in Hkept as [_ Hc].
        apply Forall_cons in Hc as [[Hc _] _]. intros Heq.
        destruct c; [done | discriminate]. }
    rewrite Hroot, HKc, Hres, removelast_last, last_snoc, length_app.
    cbn [length]. split; [by apply prefix_app_r |].
    intros c' [= <-]. exists (c +:+ hd). split.
    + rewrite lookup_app_r by lia.
      replace (length parent + 1 - 1 - length parent)%nat with 0%nat by lia. done.
    + unfold JS.startsWith. apply prefix_spec. by exists hd.
Qed.

Lemma validatePath_confined_witness :
  removelast (path_components "/tmp/s1")
    `prefix_of` path_components
                  (Path.resolve "/home" ["/tmp/s1"; "../s1evil/secret.txt"])
  /\ forall c, last (path_components "/tmp/s1") = Some c ->
       exists name,
         path_components (Path.resolve "/home" ["/tmp/s1"; "../s1evil/secret.txt"])
           !! (length (path_components "/tmp/s1") - 1)%nat = Some name
         /\ JS.startsWith name c = true.
Proof.
  apply (validatePath_confined Sample.config Sample.world0 "../s1evil/secret.txt").
  - reflexivity.
  - reflexivity.
  - reflexivity.
  - reflexivity.
Defined.

(** ** The CSV parser *)

Lemma trimEnd_idem (s : string) : Str.trimEnd (Str.trimEnd s) = Str.trimEnd s.
Proof.
  induction s as [| c s IH]; [done |]. cbn [Str.trimEnd].
  destruct (Str.trimEnd s) as [| d t] eqn:Ht.
  - destruct (Str.is_space c) eqn:Hc; [done |]. cbn [Str.trimEnd]. by rewrite Hc.
  - change (Str.trimEnd (String c (String d t)))
      with (match Str.trimEnd (String d t) with
            | EmptyString =>
                if Str.is_space c then EmptyString else String c EmptyString
            | String a t' => String c (String a t')
            end).
    by rewrite IH.
Qed.

Lemma trimStart_head (s : string) :
  Str.trimStart s = ""
  \/ exists c r, Str.trimStart s = String c r /\ Str.is_space c = false.
Proof.
  induction s as [| c s IH]; [by left |]. cbn [Str.trimStart].
  destruct (Str.is_space c) eqn:Hc; [done |]. right. by exists c, s.
Qed.

Lemma trimEnd_head (c : ascii) (r : string) :
  Str.is_space c = false -> exists r', Str.trimEnd (String c r) = String c r'.
Proof.
  intros Hc. cbn [Str.trimEnd]. rewrite Hc.
  destruct (Str.trimEnd r); by eexists.
Qed.

Lemma trim_idem (s : string) : Str.trim (Str.trim s) = Str.trim s.
Proof.
  unfold Str.trim. destruct (trimStart_head s) as [-> | (c & r & -> & Hc)]; [done |].
  destruct (trimEnd_head c r Hc) as [r' Hr']. rewrite Hr'.
  cbn [Str.trimStart]. rewrite Hc, <- Hr'. apply trimEnd_idem.
Qed.

Lemma fill_row_value (values : list string) (index : nat) :
  match values !! index with
  | Some v => if String.eqb v "" then "" else v
  | None => ""
  end = cell values index.
Proof.
  unfold cell. destruct (values !! index) as [v |]; [| done].
  by destruct (String.eqb_spec v "").
Qed.

Lemma fill_row_cons (header : string) (rest : list string) (index : nat)
    (values : list string) (row : gmap string string) :
  fill_row (header :: rest) index values row
  = fill_row rest (S index) values (object_set row header (cell values index)).
Proof. cbn [fill_row]. by rewrite fill_row_value. Qed.

Lemma object_set_lookup (row : gmap string string) (key value k : string) :
  object_set row key value !! k
  = if decide (k = key /\ key <> "__proto__") then Some value else row !! k.
Proof.
  unfold object_set. destruct (String.eqb_spec key "__proto__") as [-> | Hne].
  - rewrite decide_False; [done | naive_solver].
  - destruct (decide (k = key)) as [-> | Hk].
    + by rewrite lookup_insert_eq, decide_True.
    + rewrite lookup_insert_ne by done. rewrite decide_False; [done | naive_solver].
Qed.

Lemma fill_row_other (headers : list string) (index : nat) (values : list string)
    (row : gmap string string) (k : string) :
  k ∉ headers \/ k = "__proto__" ->
  fill_row headers index values row !! k = row !! k.
Proof.
  revert index row. induction headers as [| h rest IH]; intros index row Hk; [done |].
  rewrite fill_row_cons, IH, object_set_lookup.
  - rewrite decide_False; [done |]. intros [-> Hne].
    destruct Hk as [Hk | Hk]; [| done]. apply Hk. by left.
  - destruct Hk as [Hk | Hk]; [| by right]. left. intros Hin. apply Hk. by right.
Qed.

(** The last column that bears a name gives the value under this name. *)
Lemma fill_row_last (headers : list string) (index : nat) (values : list string)
    (row : gmap string string) (i : nat) (k : string) :
  headers !! i = Some k -> k <> "__proto__" ->
  (forall i', (i < i')%nat -> headers !! i' <> Some k) ->
  fill_row headers index values row !! k = Some (cell values (index + i)).
Proof.
  revert index row i. induction headers as [| h rest IH]; intros index row i Hi Hk Hlast;
    [done |].
  rewrite fill_row_cons. destruct i as [| i].
  - injection Hi as ->. rewrite fill_row_other.
    + rewrite object_set_lookup, decide_True by done. by rewrite Nat.add_0_r.
    + left. intros (i' & Hi')%list_elem_of_lookup. apply (Hlast (S i')); [lia | done].
  - rewrite (IH (S index) _ i); [f_equal; f_equal; lia | done | done |].
    intros i' Hlt. apply (Hlast (S i')). lia.
Qed.

Lemma fill_row_dom (headers : list string) (index : nat) (values : list string)
    (row : gmap string string) :
  dom (fill_row headers index values row)
  = dom row ∪ (list_to_set headers ∖ {["__proto__"]}).
Proof.
  revert index row. induction headers as [| h rest IH]; intros index row.
  - cbn [fill_row list_to_set]. set_solver.
  - rewrite fill_row_cons, IH. unfold object_set.
    destruct (String.eqb_spec h "__proto__") as [-> | Hne].
    + cbn [list_to_set]. set_solver.
    + rewrite dom_insert_L. cbn [list_to_set]. set_solver.
Qed.

Lemma fill_row_trimmed (headers : list string) (index : nat) (values : list string)
    (row : gmap string string) :
  (forall k v, row !! k = Some v -> Str.trim v = v) ->
  Forall (fun v => Str.trim v = v) values ->
  forall k v, fill_row headers index values row !! k = Some v -> Str.trim v = v.
Proof.
  revert index row. induction headers as [| h rest IH]; intros index row Hrow Hvalues;
    [done |].
  rewrite fill_row_cons. apply IH; [| done].
  intros k v. rewrite object_set_lookup.
  destruct (decide (k = h /\ h <> "__proto__")); [| apply Hrow].
  intros [= <-]. unfold cell.
  destruct (values !! index) as [x |] eqn:Hx; [| done].
  by apply (Forall_lookup_1 _ _ _ _ Hvalues Hx).
Qed.

Lemma split_nonempty (sep : ascii) (s : string) : Str.split sep s <> [].
Proof.
  destruct s as [| c s]; [done |]. cbn [Str.split].
  destruct (Ascii.eqb c sep); [done |]. by destruct (Str.split sep s).
Qed.

(** X15. What [parseCSV] returns.  The first line of the trimmed text
    gives the column names, every further line gives one record, blank
    lines included.  Whatever the number of cells of its line, a record
    has exactly the column names as keys, [__proto__] apart, which never
    becomes a key; under a name it holds the trimmed cell of the last
    column with this name, or the empty string when the line is too
    short; and no value starts or ends with white space. *)
Theorem parseCSV_records :
  forall content : string,
    let lines := Str.split Str.LF (Str.trim content) in
    let headers := Str.trim <$> Str.split "," (hd "" lines) in
    length (parseCSV content) = (length lines - 1)%nat
    /\ forall (j : nat) (line : string),
         tail lines !! j = Some line ->
         exists row,
           parseCSV content !! j = Some row
           /\ dom row = list_to_set headers ∖ {["__proto__"]}
           /\ (forall (i : nat) (header : string),
                 headers !! i = Some header -> header <> "__proto__" ->
                 (forall i', (i < i')%nat -> headers !! i' <> Some header) ->
                 row !! header = Some (cell (Str.trim <$> Str.split "," line) i))
           /\ (forall k v, row !! k = Some v -> Str.trim v = v).
Proof.
  intros content lines headers. unfold parseCSV. fold lines.
  pose proof (split_nonempty Str.LF (Str.trim content)) as Hne. fold lines in Hne.
  destruct lines as [| first rest]; [done |].
  cbn [hd tail length] in *. fold headers.
  split; [rewrite length_fmap; lia |].
  intros j line Hj. eexists. split; [by rewrite list_lookup_fmap, Hj |].
  split; [| split].
  - rewrite fill_row_dom, dom_empty_L. set_solver.
  - intros i header Hi Hh Hlast. by rewrite (fill_row_last _ _ _ _ i).
  - apply fill_row_trimmed; [by intros k v; rewrite lookup_empty |].
    apply Forall_fmap, Forall_forall. intros x _. apply trim_idem.
Qed.

(** Quotes mean nothing to the parser: a quoted cell with a comma is cut. *)
Example parseCSV_quoted :
  let quote := String (ascii_of_nat 34) "" in
  parseCSV ("name,city" +:+ String Str.LF "Ann," +:+ quote +:+ "Paris, France"
            +:+ quote)
  = [{["name" := "Ann"; "city" := quote +:+ "Paris"]}].
Proof. by vm_compute. Qed.

(** ** The audit trail of a session *)

Lemma deliver_security (config : SandboxConfig) (w : world) (ev : event) :
  exists records,
    w_security (deliver config w ev) = w_security w ++ records
    /\ Forall2 (audit_of config) records (blocked_calls [ev]).
Proof.
  destruct ev as [command args pid | c d | c d | c e | c code | c |];
    cbn [deliver blocked_calls omap list_omap].
  - unfold executeCommand, allowed.
    destruct (JS.array_includes allowedCommands command); cbn.
    + exists []. by rewrite app_nil_r.
    + eexists [_]. split; [done |]. constructor; [| done].
      unfold audit_of, sessionId_or_unknown. cbn [fst snd].
      rewrite !lookup_insert_eq.
      repeat split; try by simplify_map_eq.
      by destruct (String.eqb (sessionId config) "").
  - exists []. rewrite app_nil_r. split; [| done].
    unfold on_stdout, with_closure. by destruct (w_calls w !! c).
  - exists []. rewrite app_nil_r. split; [| done].
    unfold on_stderr, with_closure. by destruct (w_calls w !! c).
  - exists []. rewrite app_nil_r. split; [| done].
    unfold on_error, mark_ended, with_closure.
    destruct (w_calls w !! c) as [cl |] eqn:Hcl; [| by rewrite Hcl].
    cbn [w_calls set_ended]. by rewrite Hcl.
  - exists []. rewrite app_nil_r. split; [| done].
    unfold mark_ended, with_closure.
    destruct (w_calls w !! c) as [cl |] eqn:Hcl.
    + by rewrite (on_close_eq c code _ cl).
    + unfold on_close, with_closure. by rewrite Hcl.
  - exists []. rewrite app_nil_r. split; [| done].
    unfold on_timer, with_closure.
    destruct (w_calls w !! c) as [cl |]; [| done].
    by destruct (processes w !! cl_processId cl).
  - exists []. rewrite app_nil_r. split; [| done].
    destruct (cleanup_eq config w) as (w' & Hcl & _ & _ & _ & _ & _ & _ & Hsec & _).
    by rewrite Hcl.
Qed.

Lemma run_security (config : SandboxConfig) (trace : list event) (w : world) :
  exists records,
    w_security (run config w trace) = w_security w ++ records
    /\ Forall2 (audit_of config) records (blocked_calls trace).
Proof.
  revert w. induction trace as [| ev trace IH]; intros w.
  - exists []. by rewrite app_nil_r.
  - destruct (deliver_security config w ev) as (r1 & H1 & Hr1).
    destruct (IH (deliver config w ev)) as (r2 & H2 & Hr2).
    exists (r1 ++ r2). cbn [run fold_left]. fold (run config (deliver config w ev) trace).
    rewrite H2, H1, app_assoc. split; [done |].
    change (ev :: trace) with ([ev] ++ trace).
    unfold blocked_calls in *. rewrite omap_app. by apply Forall2_app.
Qed.

(** X16. The audit trail of a session.  Whatever calls and events a
    session sees, its security log holds one record for each call that
    the whitelist refused, in the order of the calls and nothing else:
    each is named command_blocked and carries the command, its arguments,
    the session id ('unknown' when the id is empty) and a time stamp.
    Commands that ran, their output, time-outs, kills and the teardown
    leave no record. *)
Theorem audit_trail :
  forall (config : SandboxConfig) (cwd now : string)
         (t : gmap (list string) Fs.node) (trace : list event),
    Forall2 (audit_of config)
      (w_security (run config (initial cwd now t) trace))
      (blocked_calls trace).
Proof.
  intros config cwd now t trace.
  destruct (run_security config trace (initial cwd now t)) as (records & Hsec & Hrec).
  by rewrite Hsec.
Qed.

(** ** What a write touches *)

(** X17. [writeFile] changes one entry of the file system or none.  When
    it succeeds, the path leads, symbolic links followed, to a place that
    held a file or nothing, and the only change is that this place now
    holds a file with the content; when it fails, the file system is as
    it was.  The processes and the security log are never touched. *)
Theorem writeFile_frame :
  forall (config : SandboxConfig) (w : world) (filePath content : string),
    let fullPath := Path.join [workDir config; filePath] in
    let w' := (writeFile config filePath content w).2 in
    match (writeFile config filePath content w).1 with
    | Ok _ =>
        exists p,
          real_location w fullPath = Ok p
          /\ is_directory (w_fs w !! p) = false
          /\ w_fs w' = <[p := Fs.File content]> (w_fs w)
    | Err _ => w_fs w' = w_fs w
    end
    /\ processes w' = processes w
    /\ w_calls w' = w_calls w
    /\ w_killed w' = w_killed w
    /\ w_spawned w' = w_spawned w
    /\ w_security w' = w_security w.
Proof.
  intros config w filePath content fullPath w'. unfold w'.
  rewrite writeFile_eq. cbv zeta. fold fullPath.
  destruct (permitted config w fullPath); [| done].
  destruct (JS.array_includes _ _); [| done].
  unfold fs_writeFile, fs_step, Fs.writeFile, real_location.
  destruct (Fs.lookup (w_cwd w) (w_fs w) fullPath) as [[| c q] | e]; [done | | done].
  destruct (w_fs w !! (c :: q)) as [[d | | target] |] eqn:Hq; cbn; try done.
  - split; [| done]. exists (c :: q). by rewrite Hq.
  - split; [| done]. exists (c :: q). by rewrite Hq.
Qed.
